(** * Scene lifecycle and animation scrubbing of the wall-lamp viewer

    A shallow embedding of [src/scripts/main.js] (the version that carries
    the animation controller, from [const SceneState] at line 443 on) and
    the properties of its animation controller, lighting setup and scene
    lifecycle.

    Numbers.  JavaScript numbers that hold times, speeds, angles and light
    intensities are embedded as exact rationals ([Q]); frame counters and
    the direction are integers ([Z]).  Rounding error of IEEE doubles is
    therefore outside the model: every statement below is about the
    arithmetic the source writes down, carried out exactly.

    Library objects.  three.js is not part of the repository.  Its objects
    are embedded by the fields the source reads and writes:
    an [AnimationMixer] by its clock ([time]; [update] adds the given
    delta, [setTime] sets it), an [AnimationAction] by its clip, loop mode,
    clamp flag and [paused] flag, lights by their intensity and distance, the
    renderer by its tone-mapping exposure. *)

From Stdlib Require Import ZArith QArith Qround Qminmax List String Bool Lia Lqa.
Import ListNotations.

Local Open Scope Q_scope.

(** ** Configuration constants ([CONFIG], lines 478-517) *)

Module CONFIG.
Module LIGHTING.
Module POINT_LIGHT.
Definition INTENSITY : Q := 10.
Definition DISTANCE : Q := 125 # 100.
End POINT_LIGHT.
Module SPOT_LIGHT.
Definition INTENSITY : Q := 40.
Definition DISTANCE : Q := 13.
End SPOT_LIGHT.
Module HEMISPHERE.
Definition INTENSITY : Q := 5 # 10.
End HEMISPHERE.
Module AMBIENT.
Definition INTENSITY : Q := 2 # 10.
End AMBIENT.
End LIGHTING.
Module SKY.
Definition TURBIDITY : Q := 10.
Definition RAYLEIGH : Q := 2.
Definition MIECOEFFICIENT : Q := 5 # 1000.
Definition MIEDIRECTIONALG : Q := 8 # 10.
Definition ELEVATION : Q := 90.
Definition AZIMUTH : Q := 90.
End SKY.
Module ANIMATION.
Definition FRAMES_PER_SECOND : Q := 60.
End ANIMATION.
End CONFIG.

(** ** JavaScript arithmetic used by the source *)

(** [Math.round]: the nearest integer, halves rounded towards plus
    infinity. *)
Definition Math_round (x : Q) : Z := Qfloor (x + (1 # 2)).

(** [Math.max] on two numbers. *)
Definition Math_max (a b : Q) : Q := Qmax a b.

(** ** The animation controller *)

Module Anim.

Inductive LoopMode := LoopRepeat | LoopOnce.

(** An animation clip of the loaded model, known by its name. *)
Definition Clip := string.

(** The playback handle of one clip ([mixer.clipAction(clip)]). *)
Record Action := mkAction {
  clip : Clip;
  loop : LoopMode;
  clampWhenFinished : bool;
  started : bool;
  paused : bool
}.

(** The shared clock of all actions. *)
Record Mixer := mkMixer { time : Q }.

Definition Mixer_update (delta : Q) (m : Mixer) : Mixer :=
  {| time := time m + delta |}.

Definition Mixer_setTime (t : Q) (m : Mixer) : Mixer :=
  {| time := t |}.

(** A frame callback is an opaque observer, known by an identifier; calling
    it is recorded as a [FrameEvent] and has no other effect on the
    controller. *)
Definition Callback := nat.

Inductive Status := started_status | playing_status | completed_status.

Record FrameEvent := mkEvent {
  ev_callback : Callback;
  ev_currentFrame : Z;
  ev_targetFrame : Z;
  ev_status : Status
}.

(** [AnimationState] (lines 465-475).  The [clock] field only produces the
    per-tick delta, which is an input of [updateAnimation] here. *)
Record AnimationState := mkAnim {
  isPlaying : bool;
  currentFrame : Z;
  targetFrame : Z;
  direction : Z;
  animations : list Action;
  mixer : option Mixer;
  speed : Q;
  onFrameCallback : option Callback
}.

Definition initial : AnimationState :=
  {| isPlaying := false; currentFrame := 0; targetFrame := 0;
     direction := 0; animations := []; mixer := None;
     speed := 15 # 10; onFrameCallback := None |}.

Definition set_paused (b : bool) (a : Action) : Action :=
  {| clip := clip a; loop := loop a;
     clampWhenFinished := clampWhenFinished a;
     started := started a; paused := b |}.

Definition play (a : Action) : Action :=
  {| clip := clip a; loop := loop a;
     clampWhenFinished := clampWhenFinished a;
     started := true; paused := paused a |}.

(** [mixer.clipAction(clip)] followed by [setLoop(LoopOnce)] and
    [clampWhenFinished = true]. *)
Definition clipAction (c : Clip) : Action :=
  {| clip := c; loop := LoopOnce; clampWhenFinished := true;
     started := false; paused := false |}.

(** The frame the mixer clock stands at. *)
Definition frameOf (m : Mixer) : Z :=
  Math_round (time m * CONFIG.ANIMATION.FRAMES_PER_SECOND).

(** The callback invocation guarded by [if (AnimationState.onFrameCallback)]. *)
Definition notify (cb : option Callback) (cur tgt : Z) (st : Status)
  : list FrameEvent :=
  match cb with
  | Some f => [mkEvent f cur tgt st]
  | None => []
  end.

(** [initializeAnimations(gltf)] (lines 851-871); [clips] is
    [gltf.animations]. *)
Definition initializeAnimations (clips : list Clip) (s : AnimationState)
  : AnimationState :=
  {| isPlaying := isPlaying s;
     currentFrame := 0;
     targetFrame := targetFrame s;
     direction := direction s;
     animations := map (fun a => set_paused true (play a)) (map clipAction clips);
     mixer := Some (Mixer_setTime 0 (mkMixer 0));
     speed := speed s;
     onFrameCallback := onFrameCallback s |}.

(** The test of lines 879-880. *)
Definition reached (dir cur tgt : Z) : bool :=
  ((0 <? dir)%Z && (tgt <=? cur)%Z) || ((dir <? 0)%Z && (cur <=? tgt)%Z).

(** [updateAnimation(deltaTime)] (lines 873-920). *)
Definition updateAnimation (deltaTime : Q) (s : AnimationState)
  : AnimationState * list FrameEvent :=
  match mixer s with
  | None => (s, [])
  | Some m =>
    if negb (isPlaying s) then (s, [])
    else
      let cur := frameOf m in
      if reached (direction s) cur (targetFrame s) then
        ({| isPlaying := false;
            currentFrame := targetFrame s;
            targetFrame := targetFrame s;
            direction := 0;
            animations := map (set_paused true) (animations s);
            mixer := Some (Mixer_setTime
                             (inject_Z (targetFrame s)
                              / CONFIG.ANIMATION.FRAMES_PER_SECOND) m);
            speed := speed s;
            onFrameCallback := onFrameCallback s |},
         notify (onFrameCallback s) (targetFrame s) (targetFrame s)
                completed_status)
      else
        ({| isPlaying := isPlaying s;
            currentFrame := cur;
            targetFrame := targetFrame s;
            direction := direction s;
            animations := map (set_paused false) (animations s);
            mixer := Some (Mixer_update
                             (deltaTime * inject_Z (direction s) * speed s) m);
            speed := speed s;
            onFrameCallback := onFrameCallback s |},
         notify (onFrameCallback s) cur (targetFrame s) playing_status)
  end.

(** [playToFrame(targetFrame, onFrame = null)] (lines 922-947). *)
Definition playToFrame (target : Z) (onFrame : option Callback)
    (s : AnimationState) : AnimationState * list FrameEvent :=
  match mixer s with
  | None => (s, [])
  | Some m =>
    let cur := frameOf m in
    if (cur =? target)%Z then (s, [])
    else
      ({| isPlaying := true;
          currentFrame := currentFrame s;
          targetFrame := target;
          direction := if (cur <? target)%Z then 1 else (-1);
          animations := map (set_paused false) (animations s);
          mixer := mixer s;
          speed := speed s;
          onFrameCallback := onFrame |},
       notify onFrame cur target started_status)
  end.

(** [stopAnimation()] (lines 949-959). *)
Definition stopAnimation (s : AnimationState) : AnimationState :=
  match mixer s with
  | None => s
  | Some _ =>
    {| isPlaying := false;
       currentFrame := currentFrame s;
       targetFrame := targetFrame s;
       direction := 0;
       animations := map (set_paused true) (animations s);
       mixer := mixer s;
       speed := speed s;
       onFrameCallback := onFrameCallback s |}
  end.

(** [setAnimationSpeed(speed)] (lines 961-963). *)
Definition setAnimationSpeed (v : Q) (s : AnimationState) : AnimationState :=
  {| isPlaying := isPlaying s;
     currentFrame := currentFrame s;
     targetFrame := targetFrame s;
     direction := direction s;
     animations := animations s;
     mixer := mixer s;
     speed := v;
     onFrameCallback := onFrameCallback s |}.

(** The render loop calls [updateAnimation] once per display refresh with
    the clock's delta; [run_ticks] plays a sequence of such calls and
    collects the callback invocations in order. *)
Fixpoint run_ticks (deltas : list Q) (s : AnimationState)
  : AnimationState * list FrameEvent :=
  match deltas with
  | [] => (s, [])
  | d :: ds =>
    let (s1, e1) := updateAnimation d s in
    let (s2, e2) := run_ticks ds s1 in
    (s2, e1 ++ e2)
  end.

Definition all_paused (s : AnimationState) : Prop :=
  Forall (fun a => paused a = true) (animations s).

End Anim.

(** ** The scene state and the lighting setup *)

Module Scene.

Inductive Color := lightblue | hex (rgb : Z).

Definition Vec3 : Type := Q * Q * Q.

(** A node of a scene graph, with the attributes the source touches.
    [child_emissive] is the emissive colour of the material of the first
    child, when there is such a child and it has a material. *)
Record Object3D := mkObj {
  name : string;
  intensity : Q;
  distance : Q;
  color : Color;
  visible : bool;
  position : Vec3;
  castShadow : bool;
  child_emissive : option Color
}.

Definition set_intensity (v : Q) (o : Object3D) : Object3D :=
  mkObj (name o) v (distance o) (color o) (visible o) (position o)
        (castShadow o) (child_emissive o).

(** A loaded sub-scene ([gltf.scene]): its nodes in traversal order and
    its own placement. *)
Record Group := mkGroup {
  nodes : list Object3D;
  g_position : Vec3;
  g_scale : Vec3
}.

(** The root scene graph, flattened in the order [getObjectByName]
    traverses it.  Nodes are looked up here by name; the attributes that
    are later written through a [SceneState] reference are kept at that
    reference. *)
Definition Graph := list Object3D.

Definition getObjectByName (n : string) (g : Graph) : option Object3D :=
  find (fun o => String.eqb (name o) n) g.

(** A direction vector: [new THREE.Vector3()] or the result of
    [setFromSphericalCoords], kept as the radius and the two angles in
    degrees handed to [degToRad]. *)
Inductive Direction := zero_vector | spherical (radius phi theta : Q).

Record Sky := mkSky {
  scalar : Q;
  turbidity : Q;
  rayleigh : Q;
  mieCoefficient : Q;
  mieDirectionalG : Q;
  sunPosition : Direction
}.

Record Renderer := mkRenderer { toneMappingExposure : Q }.

Record Camera := mkCamera { fov : Q; near : Q; far : Q; cam_position : Vec3 }.

Record Controls := mkControls { target : Vec3 }.

(** [SceneState] (lines 443-463). *)
Record SceneState := mkScene {
  scene : option Graph;
  renderer : option Renderer;
  camera : option Camera;
  controls : option Controls;
  support : option Object3D;
  cylindricalBulb : option Object3D;
  sphericalBulb : option Object3D;
  blenderScene : option Group;
  sky : option Sky;
  sun : option Direction;
  pointLight : option Object3D;
  spotLight : option Object3D;
  ambientLight : option Object3D;
  hemisphereLight : option Object3D;
  loadingComplete : bool;
  isLoading : bool
}.

(** Field assignments. *)

Definition set_scene (v : option Graph) (s : SceneState) : SceneState :=
  mkScene v (renderer s) (camera s) (controls s) (support s)
    (cylindricalBulb s) (sphericalBulb s) (blenderScene s) (sky s) (sun s)
    (pointLight s) (spotLight s) (ambientLight s) (hemisphereLight s)
    (loadingComplete s) (isLoading s).

Definition set_renderer (v : option Renderer) (s : SceneState) : SceneState :=
  mkScene (scene s) v (camera s) (controls s) (support s)
    (cylindricalBulb s) (sphericalBulb s) (blenderScene s) (sky s) (sun s)
    (pointLight s) (spotLight s) (ambientLight s) (hemisphereLight s)
    (loadingComplete s) (isLoading s).

Definition set_camera (v : option Camera) (s : SceneState) : SceneState :=
  mkScene (scene s) (renderer s) v (controls s) (support s)
    (cylindricalBulb s) (sphericalBulb s) (blenderScene s) (sky s) (sun s)
    (pointLight s) (spotLight s) (ambientLight s) (hemisphereLight s)
    (loadingComplete s) (isLoading s).

Definition set_controls (v : option Controls) (s : SceneState) : SceneState :=
  mkScene (scene s) (renderer s) (camera s) v (support s)
    (cylindricalBulb s) (sphericalBulb s) (blenderScene s) (sky s) (sun s)
    (pointLight s) (spotLight s) (ambientLight s) (hemisphereLight s)
    (loadingComplete s) (isLoading s).

Definition set_support (v : option Object3D) (s : SceneState) : SceneState :=
  mkScene (scene s) (renderer s) (camera s) (controls s) v
    (cylindricalBulb s) (sphericalBulb s) (blenderScene s) (sky s) (sun s)
    (pointLight s) (spotLight s) (ambientLight s) (hemisphereLight s)
    (loadingComplete s) (isLoading s).

Definition set_cylindricalBulb (v : option Object3D) (s : SceneState) : SceneState :=
  mkScene (scene s) (renderer s) (camera s) (controls s) (support s) v
    (sphericalBulb s) (blenderScene s) (sky s) (sun s) (pointLight s)
    (spotLight s) (ambientLight s) (hemisphereLight s) (loadingComplete s)
    (isLoading s).

Definition set_sphericalBulb (v : option Object3D) (s : SceneState) : SceneState :=
  mkScene (scene s) (renderer s) (camera s) (controls s) (support s)
    (cylindricalBulb s) v (blenderScene s) (sky s) (sun s) (pointLight s)
    (spotLight s) (ambientLight s) (hemisphereLight s) (loadingComplete s)
    (isLoading s).

Definition set_blenderScene (v : option Group) (s : SceneState) : SceneState :=
  mkScene (scene s) (renderer s) (camera s) (controls s) (support s)
    (cylindricalBulb s) (sphericalBulb s) v (sky s) (sun s) (pointLight s)
    (spotLight s) (ambientLight s) (hemisphereLight s) (loadingComplete s)
    (isLoading s).

Definition set_sky (v : option Sky) (s : SceneState) : SceneState :=
  mkScene (scene s) (renderer s) (camera s) (controls s) (support s)
    (cylindricalBulb s) (sphericalBulb s) (blenderScene s) v (sun s)
    (pointLight s) (spotLight s) (ambientLight s) (hemisphereLight s)
    (loadingComplete s) (isLoading s).

Definition set_sun (v : option Direction) (s : SceneState) : SceneState :=
  mkScene (scene s) (renderer s) (camera s) (controls s) (support s)
    (cylindricalBulb s) (sphericalBulb s) (blenderScene s) (sky s) v
    (pointLight s) (spotLight s) (ambientLight s) (hemisphereLight s)
    (loadingComplete s) (isLoading s).

Definition set_pointLight (v : option Object3D) (s : SceneState) : SceneState :=
  mkScene (scene s) (renderer s) (camera s) (controls s) (support s)
    (cylindricalBulb s) (sphericalBulb s) (blenderScene s) (sky s) (sun s)
    v (spotLight s) (ambientLight s) (hemisphereLight s) (loadingComplete
    s) (isLoading s).

Definition set_spotLight (v : option Object3D) (s : SceneState) : SceneState :=
  mkScene (scene s) (renderer s) (camera s) (controls s) (support s)
    (cylindricalBulb s) (sphericalBulb s) (blenderScene s) (sky s) (sun s)
    (pointLight s) v (ambientLight s) (hemisphereLight s) (loadingComplete
    s) (isLoading s).

Definition set_ambientLight (v : option Object3D) (s : SceneState) : SceneState :=
  mkScene (scene s) (renderer s) (camera s) (controls s) (support s)
    (cylindricalBulb s) (sphericalBulb s) (blenderScene s) (sky s) (sun s)
    (pointLight s) (spotLight s) v (hemisphereLight s) (loadingComplete s)
    (isLoading s).

Definition set_hemisphereLight (v : option Object3D) (s : SceneState) : SceneState :=
  mkScene (scene s) (renderer s) (camera s) (controls s) (support s)
    (cylindricalBulb s) (sphericalBulb s) (blenderScene s) (sky s) (sun s)
    (pointLight s) (spotLight s) (ambientLight s) v (loadingComplete s)
    (isLoading s).

Definition set_loadingComplete (v : bool) (s : SceneState) : SceneState :=
  mkScene (scene s) (renderer s) (camera s) (controls s) (support s)
    (cylindricalBulb s) (sphericalBulb s) (blenderScene s) (sky s) (sun s)
    (pointLight s) (spotLight s) (ambientLight s) (hemisphereLight s) v
    (isLoading s).

Definition set_isLoading (v : bool) (s : SceneState) : SceneState :=
  mkScene (scene s) (renderer s) (camera s) (controls s) (support s)
    (cylindricalBulb s) (sphericalBulb s) (blenderScene s) (sky s) (sun s)
    (pointLight s) (spotLight s) (ambientLight s) (hemisphereLight s)
    (loadingComplete s) v.

Definition initial : SceneState :=
  mkScene None None None None None None None None None None None None None
          None false true.

(** Every object field is null. *)
Definition all_null (s : SceneState) : bool :=
  match s with
  | mkScene None None None None None None None None None None None None
            None None _ _ => true
  | _ => false
  end.

Definition is_some {A : Type} (o : option A) : bool :=
  match o with Some _ => true | None => false end.


End Scene.

(** ** The page: both state singletons, the console and the render loops *)

Inductive JsError :=
| TypeError (what : string)
| ContextError
| LoadError (path : string).

Inductive LogEntry :=
| log_text (msg : string)
| log_error (msg : string) (e : JsError).

Record World := mkWorld {
  sceneState : Scene.SceneState;
  animState : Anim.AnimationState;
  console_errors : list LogEntry;
  frame_events : list Anim.FrameEvent;
  render_loops : nat
}.

Definition initial_world : World :=
  mkWorld Scene.initial Anim.initial [] [] 0.

Definition with_scene (f : Scene.SceneState -> Scene.SceneState) (w : World)
  : World :=
  mkWorld (f (sceneState w)) (animState w) (console_errors w)
          (frame_events w) (render_loops w).

Definition with_anim (f : Anim.AnimationState -> Anim.AnimationState)
    (w : World) : World :=
  mkWorld (sceneState w) (f (animState w)) (console_errors w)
          (frame_events w) (render_loops w).

Definition console_error (l : LogEntry) (w : World) : World :=
  mkWorld (sceneState w) (animState w) (console_errors w ++ [l])
          (frame_events w) (render_loops w).

(** *** Statements that may throw

    A computation over the page either returns or throws; the state
    written before a throw stays written. *)

Definition Js (A : Type) : Type := World -> (A + JsError) * World.

Definition ret {A : Type} (a : A) : Js A := fun w => (inl a, w).

Definition throw {A : Type} (e : JsError) : Js A := fun w => (inr e, w).

Definition bind {A B : Type} (m : Js A) (k : A -> Js B) : Js B :=
  fun w =>
    match m w with
    | (inl a, w1) => k a w1
    | (inr e, w1) => (inr e, w1)
    end.

Definition modify (f : World -> World) : Js unit := fun w => (inl tt, f w).

Definition gets {A : Type} (f : World -> A) : Js A := fun w => (inl (f w), w).

(** [try { body } catch (error) { handler(error) }]. *)
Definition try_catch (body : Js unit) (handler : JsError -> Js unit)
  : Js unit :=
  fun w =>
    match body w with
    | (inl tt, w1) => (inl tt, w1)
    | (inr e, w1) => handler e w1
    end.

Declare Scope js_scope.
Delimit Scope js_scope with js.
Notation "x <- m ;; k" := (bind m (fun x => k))
  (at level 61, m at next level, right associativity) : js_scope.
Notation "m ;;; k" := (bind m (fun _ => k))
  (at level 61, right associativity) : js_scope.

Definition when (b : bool) (m : Js unit) : Js unit :=
  if b then m else ret tt.

(** Dereferencing a reference that may be null. *)
Definition deref {A : Type} (what : string) (o : option A) : Js A :=
  match o with
  | Some a => ret a
  | None => throw (TypeError what)
  end.

(** ** Lighting and environment setup *)

Module Lighting.
Import Scene.
Local Open Scope js_scope.

Definition origin : Vec3 := (0, 0, 0).

(** A freshly constructed light or mesh that carries no name. *)
Definition new_object (c : Color) (i : Q) : Object3D :=
  mkObj EmptyString i 0 c true origin false None.

Definition assign (f : SceneState -> SceneState) : Js unit :=
  modify (with_scene f).

Definition read {A : Type} (f : SceneState -> A) : Js A :=
  gets (fun w => f (sceneState w)).

(** [scene.add(o)], for the scene that [SceneState.scene] references. *)
Definition scene_add (os : list Object3D) : Js unit :=
  g <- read scene ;;
  g <- deref "scene" g ;;
  assign (set_scene (Some (g ++ os))).

(** [scene.getObjectByName(n)], same scene. *)
Definition scene_getObjectByName (n : string) : Js (option Object3D) :=
  g <- read scene ;;
  g <- deref "scene" g ;;
  ret (getObjectByName n g).

(** The two constants of lines 623-624. *)
Definition timeOfDay (elevation : Q) : Q := (elevation + 90) / 180.

Definition daylight (elevation : Q) : Q :=
  Math_max (1 # 10) (timeOfDay elevation).

(** [updateDaytime(elevation, azimuth)] (lines 613-644). *)
Definition updateDaytime (elevation azimuth : Q) : Js unit :=
  ready <- read loadingComplete ;;
  if negb ready then ret tt
  else
    let phi := 90 - elevation in
    let theta := azimuth in
    sn <- read sun ;;
    _ <- deref "sun" sn ;;
    assign (set_sun (Some (spherical 1 phi theta))) ;;;
    sk <- read sky ;;
    sk <- deref "sky" sk ;;
    assign (set_sky (Some (mkSky (scalar sk) (turbidity sk) (rayleigh sk)
                                 (mieCoefficient sk) (mieDirectionalG sk)
                                 (spherical 1 phi theta)))) ;;;
    let intensity := daylight elevation in
    assign (fun s => set_hemisphereLight
              (option_map
                 (set_intensity (CONFIG.LIGHTING.HEMISPHERE.INTENSITY * intensity))
                 (hemisphereLight s)) s) ;;;
    assign (fun s => set_ambientLight
              (option_map
                 (set_intensity (CONFIG.LIGHTING.AMBIENT.INTENSITY * intensity))
                 (ambientLight s)) s) ;;;
    assign (fun s => set_pointLight
              (option_map
                 (set_intensity (CONFIG.LIGHTING.POINT_LIGHT.INTENSITY / intensity))
                 (pointLight s)) s) ;;;
    assign (fun s => set_spotLight
              (option_map
                 (set_intensity (CONFIG.LIGHTING.SPOT_LIGHT.INTENSITY / intensity))
                 (spotLight s)) s) ;;;
    assign (fun s => set_renderer
              (option_map
                 (fun _ => mkRenderer (Math_max (3 # 10) intensity))
                 (renderer s)) s).

(** [setupLighting(scene)] (lines 577-592). *)
Definition setupLighting : Js unit :=
  let hemi := new_object (hex 0xffffff) CONFIG.LIGHTING.HEMISPHERE.INTENSITY in
  let amb := new_object (hex 0xffffff) CONFIG.LIGHTING.AMBIENT.INTENSITY in
  assign (set_hemisphereLight (Some hemi)) ;;;
  scene_add [hemi] ;;;
  assign (set_ambientLight (Some amb)) ;;;
  scene_add [amb].

(** [new Sky()] with the uniforms the shader starts from. *)
Definition new_Sky : Sky := mkSky 1 2 1 (5 # 1000) (8 # 10) zero_vector.

(** [setupSky(scene)] (lines 594-611). *)
Definition setupSky : Js unit :=
  assign (set_sky (Some (mkSky 450000 (turbidity new_Sky) (rayleigh new_Sky)
                               (mieCoefficient new_Sky)
                               (mieDirectionalG new_Sky)
                               (sunPosition new_Sky)))) ;;;
  scene_add [new_object (hex 0) 0] ;;;
  assign (set_sun (Some zero_vector)) ;;;
  sk <- read sky ;;
  sk <- deref "sky" sk ;;
  assign (set_sky (Some (mkSky (scalar sk) CONFIG.SKY.TURBIDITY
                               CONFIG.SKY.RAYLEIGH CONFIG.SKY.MIECOEFFICIENT
                               CONFIG.SKY.MIEDIRECTIONALG (sunPosition sk)))) ;;;
  updateDaytime CONFIG.SKY.ELEVATION CONFIG.SKY.AZIMUTH.

(** The three assignments of [configureLights] to a light that exists. *)
Definition configure (i d : Q) (o : Object3D) : Object3D :=
  mkObj (name o) i d lightblue (visible o) (position o) (castShadow o)
        (child_emissive o).

(** [configureLights(scene)] (lines 646-664). *)
Definition configureLights : Js unit :=
  p <- scene_getObjectByName "Point" ;;
  assign (set_pointLight p) ;;;
  sp <- scene_getObjectByName "Spot" ;;
  assign (set_spotLight sp) ;;;
  assign (fun s => set_pointLight
            (option_map (configure CONFIG.LIGHTING.POINT_LIGHT.INTENSITY
                                   CONFIG.LIGHTING.POINT_LIGHT.DISTANCE)
                        (pointLight s)) s) ;;;
  assign (fun s => set_spotLight
            (option_map (configure CONFIG.LIGHTING.SPOT_LIGHT.INTENSITY
                                   CONFIG.LIGHTING.SPOT_LIGHT.DISTANCE)
                        (spotLight s)) s).

End Lighting.

(** ** Asset loading, activation and teardown *)

Module Lifecycle.
Import Scene Lighting.
Local Open Scope js_scope.

(** What a scene file holds once parsed: [gltf.scene] and
    [gltf.animations]. *)
Record Gltf := mkGltf {
  gltf_scene : Group;
  gltf_animations : list Anim.Clip
}.

(** How one [loader.load] call ends. *)
Inductive Outcome := Resolved (g : Gltf) | Rejected (e : JsError).

(** The page the script runs in: whether the [threeJSContainer] element
    exists and whether a WebGL context can be created. *)
Record Page := mkPage {
  container_present : bool;
  webgl_available : bool
}.

Definition set_visible (b : bool) (o : Object3D) : Object3D :=
  mkObj (name o) (intensity o) (distance o) (color o) b (position o)
        (castShadow o) (child_emissive o).

Definition set_position (p : Vec3) (o : Object3D) : Object3D :=
  mkObj (name o) (intensity o) (distance o) (color o) (visible o) p
        (castShadow o) (child_emissive o).

Definition set_child_emissive (c : Color) (o : Object3D) : Object3D :=
  mkObj (name o) (intensity o) (distance o) (color o) (visible o)
        (position o) (castShadow o)
        (option_map (fun _ => c) (child_emissive o)).

(** The success callback of [loadBlenderScene] (lines 727-735).  The
    callback closes over the scene of its activation; it is reached here
    through [SceneState.scene], which holds that scene as long as no
    teardown ran since the load was issued. *)
Definition loadBlenderScene_onLoad (g : Gltf) : Js unit :=
  assign (set_blenderScene (Some (gltf_scene g))) ;;;
  scene_add (nodes (gltf_scene g)) ;;;
  assign (fun s => set_blenderScene
            (option_map (fun b => mkGroup (nodes b) (27, -9, -(1 # 10))
                                          (1, 1, 1))
                        (blenderScene s)) s).

(** The success callback of [loadModel] (lines 749-771). *)
Definition loadModel_onLoad (g : Gltf) : Js unit :=
  scene_add (nodes (gltf_scene g)) ;;;
  o <- scene_getObjectByName "Support" ;;
  assign (set_support o) ;;;
  o <- scene_getObjectByName "C_LightBulb" ;;
  assign (set_cylindricalBulb o) ;;;
  o <- scene_getObjectByName "S_LightBulb" ;;
  assign (set_sphericalBulb o) ;;;
  assign (fun s => set_sphericalBulb
            (option_map (set_visible false) (sphericalBulb s)) s) ;;;
  assign (fun s => set_cylindricalBulb
            (option_map (set_child_emissive lightblue) (cylindricalBulb s))
            s) ;;;
  assign (fun s => if is_some (support s) && is_some (blenderScene s)
                   then set_support
                          (option_map (set_position origin) (support s)) s
                   else s) ;;;
  modify (with_anim (Anim.initializeAnimations (gltf_animations g))).

(** A load settles: its success callback runs and resolves the promise,
    or the promise is rejected with the loader's error. *)
Definition settle_backdrop (o : Outcome) : Js unit :=
  match o with
  | Resolved g => loadBlenderScene_onLoad g
  | Rejected e => throw e
  end.

Definition settle_model (o : Outcome) : Js unit :=
  match o with
  | Resolved g => loadModel_onLoad g
  | Rejected e => throw e
  end.

(** [initializeRenderer(container)] (lines 529-561). *)
Definition initializeRenderer (p : Page) : Js (option Renderer) :=
  if negb (container_present p) then
    modify (console_error (log_text "Container not found")) ;;;
    ret None
  else if webgl_available p then
    ret (Some (mkRenderer (5 # 10)))
  else
    modify (console_error
              (log_error "Failed to initialize WebGL renderer:" ContextError)) ;;;
    ret None.

(** [setupCamera(canvas)] (lines 563-575). *)
Definition setupCamera : Camera := mkCamera 50 1 1000 (-8, 0, 15).

(** [cleanup3D()] (lines 983-1005): every key of [SceneState] is set to
    null, then the two loading flags are set again.  [AnimationState] is
    not written. *)
Definition cleanup3D (w : World) : World :=
  with_scene
    (fun _ => set_isLoading true
                (set_loadingComplete false
                   (mkScene None None None None None None None None None
                            None None None None None false false)))
    w.

(** The handler of the [catch] in [initScene] (lines 815-819). *)
Definition initScene_catch (e : JsError) : Js unit :=
  modify (console_error (log_error "Error during scene initialization:" e)) ;;;
  assign (set_isLoading false).

(** [initScene], from the [await] on (lines 801-814): [joined] is what
    [Promise.all] settled with. *)
Definition initScene_resume (joined : unit + JsError) : Js unit :=
  try_catch
    (match joined with
     | inr e => throw e
     | inl _ =>
       setupLighting ;;;
       setupSky ;;;
       configureLights ;;;
       scene_add [mkObj EmptyString (5 # 10) 0 (hex 0xffffff) true (5, 5, 5)
                        true None] ;;;
       assign (set_loadingComplete true) ;;;
       assign (set_isLoading false) ;;;
       updateDaytime CONFIG.SKY.ELEVATION CONFIG.SKY.AZIMUTH
     end)
    initScene_catch.

(** One call of [animate] (lines 966-976); [delta] is what
    [clock.getDelta()] returns.  Returns whether the next frame was
    requested. *)
Definition animate (delta : Q) : Js bool :=
  r <- read renderer ;;
  match r with
  | None => ret false
  | Some _ =>
    modify (fun w =>
              match Anim.mixer (animState w) with
              | None => w
              | Some _ =>
                let (a, evs) := Anim.updateAnimation delta (animState w) in
                mkWorld (sceneState w) a (console_errors w)
                        (frame_events w ++ evs) (render_loops w)
              end) ;;;
    ret true
  end.

(** [initializeAnimation()] (lines 965-979): the first frame; a render
    loop is alive when that frame requested the next one. *)
Definition initializeAnimation (delta : Q) : Js unit :=
  again <- animate delta ;;
  when again
       (modify (fun w => mkWorld (sceneState w) (animState w)
                                 (console_errors w) (frame_events w)
                                 (S (render_loops w)))).

(** [init3DScene], up to the [await Promise.all] inside [initScene]
    (lines 823-843 and 793-799).  Returns whether the loads were issued. *)
Definition init3DScene_begin (p : Page) : Js bool :=
  sc <- read scene ;;
  if is_some sc then ret false
  else
    r <- initializeRenderer p ;;
    match r with
    | None =>
      modify (console_error (log_text "Failed to initialize renderer")) ;;;
      ret false
    | Some rd =>
      assign (set_renderer (Some rd)) ;;;
      assign (set_scene (Some [])) ;;;
      assign (set_camera (Some setupCamera)) ;;;
      assign (set_controls (Some (mkControls origin))) ;;;
      assign (set_isLoading true) ;;;
      ret true
    end.

(** [init3DScene], from the [await] on (lines 842-848). *)
Definition init3DScene_resume (joined : unit + JsError) (delta : Q)
  : Js unit :=
  try_catch
    (initScene_resume joined ;;; initializeAnimation delta)
    (fun e =>
       modify (console_error
                 (log_error "Error during scene initialization:" e)) ;;;
       modify cleanup3D).

(** One activation: the page, how and in which order the two loads
    settle, and the clock delta of the first frame. *)
Inductive Order := backdrop_first | model_first.

Record Activation := mkActivation {
  page : Page;
  backdrop : Outcome;
  model : Outcome;
  order : Order;
  first_delta : Q
}.

Definition first_load (a : Activation) : Js unit :=
  match order a with
  | backdrop_first => settle_backdrop (backdrop a)
  | model_first => settle_model (model a)
  end.

Definition second_load (a : Activation) : Js unit :=
  match order a with
  | backdrop_first => settle_model (model a)
  | model_first => settle_backdrop (backdrop a)
  end.

(** The pages other code can observe while [init3DScene] runs: after the
    synchronous start, and after each load settled together with the
    continuations that settlement released.  [Promise.all] rejects with
    the first rejection and resolves when both loads resolved; a load that
    settles after the rejection still runs its callback. *)
Definition activate_trace (a : Activation) (w : World) : list World :=
  match init3DScene_begin (page a) w with
  | (inl true, w0) =>
    match first_load a w0 with
    | (inr e, w1) =>
      let w2 := snd (init3DScene_resume (inr e) (first_delta a) w1) in
      [w0; w2; snd (second_load a w2)]
    | (inl _, w1) =>
      let (r2, w2) := second_load a w1 in
      [w0; w1; snd (init3DScene_resume r2 (first_delta a) w2)]
    end
  | (_, w0) => [w0]
  end.

(** [toggleView('3DView')]: the page once the activation has run. *)
Definition activate (a : Activation) (w : World) : World :=
  last (activate_trace a w) w.

(** [toggleView('imageView')]. *)
Definition deactivate (w : World) : World := cleanup3D w.

End Lifecycle.

(** ** Predicates and sample inputs for the scene statements *)

Module SceneSpec.
Import Scene Lighting Lifecycle.

(** [clamp(lo, hi, x)]. *)
Definition clamp (lo hi x : Q) : Q := Qmax lo (Qmin hi x).

(** The lighting setup has completed: the guard of [updateDaytime] is open
    and the sun and sky it writes exist. *)
Definition ready (w : World) : Prop :=
  loadingComplete (sceneState w) = true
  /\ sun (sceneState w) <> None
  /\ sky (sceneState w) <> None.

(** The light and exposure writes of [updateDaytime] for the factor [f]. *)
Definition daytime_applied (f : Q) (s s' : SceneState) : Prop :=
  hemisphereLight s'
  = option_map (set_intensity (CONFIG.LIGHTING.HEMISPHERE.INTENSITY * f))
               (hemisphereLight s)
  /\ ambientLight s'
     = option_map (set_intensity (CONFIG.LIGHTING.AMBIENT.INTENSITY * f))
                  (ambientLight s)
  /\ pointLight s'
     = option_map (set_intensity (CONFIG.LIGHTING.POINT_LIGHT.INTENSITY / f))
                  (pointLight s)
  /\ spotLight s'
     = option_map (set_intensity (CONFIG.LIGHTING.SPOT_LIGHT.INTENSITY / f))
                  (spotLight s)
  /\ renderer s'
     = option_map (fun _ => mkRenderer (Math_max (3 # 10) f)) (renderer s)
  /\ (forall r, renderer s' = Some r -> 3 # 10 <= toneMappingExposure r).

(** The light [a] is at most as bright as the light [b]; both present or
    both absent. *)
Definition dimmer (a b : option Object3D) : Prop :=
  match a, b with
  | Some x, Some y => intensity x <= intensity y
  | None, None => True
  | _, _ => False
  end.

(** Sample assets: a backdrop that carries the two named lights, and the
    lamp model with its named parts and one clip. *)
Definition node (n : string) : Object3D :=
  mkObj n 1 0 (hex 0xffffff) true (1, 2, 3) false None.

Definition sample_backdrop : Gltf :=
  mkGltf (mkGroup [node "Wall"; node "Point"; node "Spot"] origin (1, 1, 1)) [].

Definition sample_model : Gltf :=
  mkGltf (mkGroup [node "Support";
                   mkObj "C_LightBulb" 0 0 (hex 0) true origin false
                         (Some (hex 0));
                   node "S_LightBulb"; node "Abajur"]
                  origin (1, 1, 1))
         ["hinge"%string].

Definition sample_page : Page := mkPage true true.

Definition both_resolve : Activation :=
  mkActivation sample_page (Resolved sample_backdrop) (Resolved sample_model)
               backdrop_first 0.

(** The second load (the model) rejects after the backdrop resolved. *)
Definition second_rejects : Activation :=
  mkActivation sample_page (Resolved sample_backdrop)
               (Rejected (LoadError "ApliqueArticuladoPecaUnica.gltf"))
               backdrop_first 0.

Definition loaded_world : World := activate both_resolve initial_world.


(** The asset [g] has a node named [n]. *)
Definition has_node (n : string) (g : Gltf) : bool :=
  is_some (getObjectByName n (nodes (gltf_scene g))).



(** A computation whose result and whose effect on [SceneState] depend on
    the [SceneState] it starts from alone. *)
Definition scene_only {A : Type} (m : Js A) : Prop :=
  forall w1 w2 : World,
    sceneState w1 = sceneState w2 ->
    fst (m w1) = fst (m w2)
    /\ sceneState (snd (m w1)) = sceneState (snd (m w2)).

(** The controller settings that no lifecycle step writes. *)
Definition settings (w : World) : Q * Z * option Anim.Callback :=
  (Anim.speed (animState w), Anim.targetFrame (animState w),
   Anim.onFrameCallback (animState w)).

Definition keeps_settings {A : Type} (m : Js A) : Prop :=
  forall w : World, settings (snd (m w)) = settings w.

End SceneSpec.

(** ** Predicates the statements below are written with *)

Module AnimSpec.
Import Anim.

(** The controller states of the design: [Seeking] is a loaded mixer
    that plays in one of the two directions. *)
Definition Seeking (s : AnimationState) : Prop :=
  mixer s <> None /\ isPlaying s = true
  /\ (direction s = 1%Z \/ direction s = (-1)%Z).

(** What a completed seek to frame [T] leaves behind. *)
Definition settled_at (T : Z) (s : AnimationState) : Prop :=
  isPlaying s = false
  /\ direction s = 0%Z
  /\ currentFrame s = T
  /\ mixer s = Some (mkMixer (inject_Z T / CONFIG.ANIMATION.FRAMES_PER_SECOND))
  /\ all_paused s.

(** The part of the [AnimationState] invariant that relates the flags. *)
Definition flags_consistent (s : AnimationState) : Prop :=
  (isPlaying s = true -> direction s <> 0%Z)
  /\ (direction s = 0%Z -> all_paused s).

(** [currentFrame] is the rounded, non-negative frame of the mixer
    clock. *)
Definition frame_in_sync (s : AnimationState) : Prop :=
  match mixer s with
  | Some m => currentFrame s = frameOf m /\ (0 <= currentFrame s)%Z
  | None => True
  end.

(** The operations of the controller. *)
Inductive Op :=
| op_initialize (clips : list Clip)
| op_playToFrame (target : Z) (onFrame : option Callback)
| op_advance (deltaTime : Q)
| op_stop
| op_setSpeed (v : Q).

Definition apply_op (o : Op) (s : AnimationState) : AnimationState :=
  match o with
  | op_initialize clips => initializeAnimations clips s
  | op_playToFrame t cb => fst (playToFrame t cb s)
  | op_advance d => fst (updateAnimation d s)
  | op_stop => stopAnimation s
  | op_setSpeed v => setAnimationSpeed v s
  end.

Definition run_ops (os : list Op) (s : AnimationState) : AnimationState :=
  fold_left (fun acc o => apply_op o acc) os s.

(** The state the completing branch of [updateAnimation] writes. *)
Definition completed (s : AnimationState) : AnimationState :=
  {| isPlaying := false;
     currentFrame := targetFrame s;
     targetFrame := targetFrame s;
     direction := 0;
     animations := map (set_paused true) (animations s);
     mixer := Some (mkMixer (inject_Z (targetFrame s)
                             / CONFIG.ANIMATION.FRAMES_PER_SECOND));
     speed := speed s;
     onFrameCallback := onFrameCallback s |}.

(** How far, in frames, the clock [m] is from the point where the test of
    [updateAnimation] fires for a controller moving in direction [dir]
    towards frame [T]; negative once the test fires. *)
Definition remaining (dir T : Z) (m : Mixer) : Q :=
  if (0 <? dir)%Z
  then inject_Z T - (1 # 2) - time m * CONFIG.ANIMATION.FRAMES_PER_SECOND
  else time m * CONFIG.ANIMATION.FRAMES_PER_SECOND - inject_Z T - (1 # 2).

(** The callbacks a run of ticks fires until the seek completes: any number
    of "playing" reports, then one "completed" report at the target. *)
Definition completion_report (s : AnimationState) (evs : list FrameEvent)
  : Prop :=
  exists earlier,
    evs = earlier ++ notify (onFrameCallback s) (targetFrame s)
                            (targetFrame s) completed_status
    /\ Forall (fun e => ev_status e = playing_status) earlier.

(** The [AnimationState] invariant of the design. *)
Definition controller_invariant (s : AnimationState) : Prop :=
  flags_consistent s /\ frame_in_sync s.

(** What an operation does to [currentFrame] and the mixer clock: after
    [initializeAnimations] and after a completing tick [currentFrame] is the
    frame of the clock; after an advancing tick it is the frame of the clock
    before that tick moved it; the other operations write neither. *)
Definition frame_effect (o : Op) (s s' : AnimationState) : Prop :=
  match o with
  | op_initialize _ =>
    exists m', mixer s' = Some m' /\ currentFrame s' = frameOf m'
  | op_advance _ =>
    match mixer s with
    | Some m =>
      if isPlaying s then
        if reached (direction s) (frameOf m) (targetFrame s)
        then currentFrame s' = targetFrame s
             /\ exists m', mixer s' = Some m' /\ currentFrame s' = frameOf m'
        else currentFrame s' = frameOf m
      else s' = s
    | None => s' = s
    end
  | op_playToFrame _ _ | op_stop | op_setSpeed _ =>
    currentFrame s' = currentFrame s /\ mixer s' = mixer s
  end.

(** Sample controllers: two clips loaded, and the same seeking to frame 30
    with a callback. *)
Definition two_clips : AnimationState :=
  initializeAnimations ["clipA"%string; "clipB"%string] initial.

Definition seeking_30 : AnimationState :=
  fst (playToFrame 30 (Some 1%nat) two_clips).

(** The same after one tick of a tenth of a second. *)
Definition seeking_30_ticked : AnimationState :=
  fst (updateAnimation (1 # 10) seeking_30).

End AnimSpec.

(** ** Further predicates: reports, lighting writes *)

Module ReportSpec.
Import Anim.

(** A report stays on the near side of the target of a controller that
    moves in direction [dir] towards [tgt]. *)
Definition within_target (dir tgt : Z) (e : FrameEvent) : Prop :=
  ev_targetFrame e = tgt
  /\ ((0 < dir)%Z -> (ev_currentFrame e <= tgt)%Z)
  /\ ((dir < 0)%Z -> (tgt <= ev_currentFrame e)%Z).

(** A report was delivered to the callback [cb]. *)
Definition delivered_to (cb : option Callback) (e : FrameEvent) : Prop :=
  cb = Some (ev_callback e).

Definition is_completed (e : FrameEvent) : bool :=
  match ev_status e with completed_status => true | _ => false end.

(** The sample seek to frame 30 after [setAnimationSpeed(0)]. *)
Definition stalled_seek : AnimationState :=
  setAnimationSpeed 0 AnimSpec.seeking_30.

End ReportSpec.

Module DaytimeSpec.
Import Scene Lighting.

(** The assignments of [updateDaytime] (lines 616-643) behind its guard,
    for a state whose sun and sky exist. *)
Definition daytime_writes (elevation azimuth : Q) (s : SceneState)
  : SceneState :=
  let f := daylight elevation in
  let dir := spherical 1 (90 - elevation) azimuth in
  set_renderer
    (option_map (fun _ => mkRenderer (Math_max (3 # 10) f)) (renderer s))
    (set_spotLight
       (option_map (set_intensity (CONFIG.LIGHTING.SPOT_LIGHT.INTENSITY / f))
                   (spotLight s))
       (set_pointLight
          (option_map
             (set_intensity (CONFIG.LIGHTING.POINT_LIGHT.INTENSITY / f))
             (pointLight s))
          (set_ambientLight
             (option_map
                (set_intensity (CONFIG.LIGHTING.AMBIENT.INTENSITY * f))
                (ambientLight s))
             (set_hemisphereLight
                (option_map
                   (set_intensity (CONFIG.LIGHTING.HEMISPHERE.INTENSITY * f))
                   (hemisphereLight s))
                (set_sky
                   (option_map
                      (fun sk => mkSky (scalar sk) (turbidity sk) (rayleigh sk)
                                       (mieCoefficient sk) (mieDirectionalG sk)
                                       dir)
                      (sky s))
                   (set_sun (Some dir) s)))))).

(** The exposure of the renderer, when there is one. *)
Definition exposure (s : SceneState) : option Q :=
  option_map toneMappingExposure (renderer s).

Definition at_most (a b : option Q) : Prop :=
  match a, b with
  | Some x, Some y => x <= y
  | None, None => True
  | _, _ => False
  end.

(** [updateDaytime] can run on [s] without dereferencing null: its guard is
    closed, or sun and sky exist. *)
Definition daytime_safe (s : SceneState) : bool :=
  negb (loadingComplete s) || (is_some (sun s) && is_some (sky s)).

End DaytimeSpec.

Module LifecycleSpec.
Import Scene Lighting Lifecycle SceneSpec.

(** The renderer can be created: the container exists and WebGL is
    available. *)
Definition page_ok (p : Page) : bool :=
  container_present p && webgl_available p.

(** The outcome of the load that settles first. *)
Definition first_outcome (a : Activation) : Outcome :=
  match order a with
  | backdrop_first => backdrop a
  | model_first => model a
  end.

(** The fields that do not depend on a named node of the assets. *)
Definition core_populated (s : SceneState) : bool :=
  is_some (scene s) && is_some (renderer s) && is_some (camera s)
  && is_some (controls s) && is_some (blenderScene s) && is_some (sky s)
  && is_some (sun s) && is_some (ambientLight s)
  && is_some (hemisphereLight s).

(** The render context exists. *)
Definition context_created (s : SceneState) : bool :=
  is_some (scene s) && is_some (renderer s) && is_some (camera s)
  && is_some (controls s).

(** What the log gains when the renderer cannot be created. *)
Definition renderer_failure_log (p : Page) : list LogEntry :=
  (if container_present p
   then log_error "Failed to initialize WebGL renderer:" ContextError
   else log_text "Container not found")
  :: [log_text "Failed to initialize renderer"].

(** Two pages that show the same [SceneState], the first with [pre]
    logged before and [n] render loops started before what the second
    has. *)
Definition same_but_log (pre : list LogEntry) (n : nat) (w1 w2 : World)
  : Prop :=
  sceneState w1 = sceneState w2
  /\ console_errors w1 = pre ++ console_errors w2
  /\ render_loops w1 = (n + render_loops w2)%nat.

(** A computation that reads nothing but [SceneState] and only appends to
    the log and adds to the loops. *)
Definition framed {A : Type} (m : Js A) : Prop :=
  forall (pre : list LogEntry) (n : nat) (w1 w2 : World),
    same_but_log pre n w1 w2 ->
    fst (m w1) = fst (m w2) /\ same_but_log pre n (snd (m w1)) (snd (m w2)).

(** The loaded sample page after a teardown. *)
Definition loaded_world_torn_down : World := deactivate loaded_world.

End LifecycleSpec.

(** ** Shade material presets ([materialPresets] and
    [updateAbajurMaterial], lines 666-718)

    [updateAbajurMaterial] walks the hierarchy of the scene and reads and
    writes the materials of its meshes, which the flattened [Scene.Graph]
    does not carry; here the scene that [SceneState.scene] references is a
    tree of named nodes. *)

Module Material.

(** A [MeshStandardMaterial], by the parameters the presets set; a
    texture is known by the path it is loaded from. *)
Record Material := mkMaterial {
  m_name : string;
  m_color : Z;
  m_roughness : Q;
  m_metalness : Q;
  m_envMapIntensity : Q;
  m_map : option string;
  m_normalMap : option string;
  m_normalScale : Q * Q;
  m_roughnessMap : option string
}.

(** [new THREE.MeshStandardMaterial()] without parameters. *)
Definition default_material : Material :=
  mkMaterial EmptyString 0xffffff 1 0 1 None None (1, 1) None.

(** What a node is: a group (or any object that is not a mesh), a mesh
    with one material, or a mesh with an array of materials. *)
Inductive Kind :=
| group
| mesh (m : Material)
| mesh_multi (ms : list Material).

Local Set Warnings "-register-all".

Inductive Node := mkNode (n_name : string) (n_kind : Kind)
                         (n_children : list Node).

Definition name_of (t : Node) : string :=
  match t with mkNode n _ _ => n end.

(** [object.getObjectByName(n)]: the object itself, else the first hit
    among the children, depth first. *)
Fixpoint find_node (n : string) (t : Node) : option Node :=
  match t with
  | mkNode nm k cs =>
    if String.eqb nm n then Some t
    else (fix first (l : list Node) : option Node :=
            match l with
            | [] => None
            | c :: l' =>
              match find_node n c with
              | Some r => Some r
              | None => first l'
              end
            end) cs
  end.

(** The callback of the [traverse] in lines 711-717, on one node: a mesh
    whose material is named "AbajurOutside" gets the new material. The
    material of a mesh with a material array has no name. *)
Definition swap_kind (newMaterial : Material) (k : Kind) : Kind :=
  match k with
  | mesh m =>
    if String.eqb (m_name m) "AbajurOutside" then mesh newMaterial else k
  | _ => k
  end.

(** [node.traverse(callback)] with that callback. *)
Fixpoint swap (newMaterial : Material) (t : Node) : Node :=
  match t with
  | mkNode nm k cs =>
    mkNode nm (swap_kind newMaterial k) (map (swap newMaterial) cs)
  end.

(** The scene after the object that [getObjectByName(n)] returns was
    changed in place by [f]. *)
Fixpoint update_first (n : string) (f : Node -> Node) (t : Node) : Node :=
  match t with
  | mkNode nm k cs =>
    if String.eqb nm n then f t
    else mkNode nm k
           ((fix go (l : list Node) : list Node :=
               match l with
               | [] => []
               | c :: l' =>
                 match find_node n c with
                 | Some _ => update_first n f c :: l'
                 | None => c :: go l'
                 end
               end) cs)
  end.

(** The three presets, as the materials [new MeshStandardMaterial(preset)]
    builds from them (parameters a preset leaves out keep the default of
    the constructor). *)
Definition black : Material :=
  mkMaterial "AbajurOutside"%string 0x101010 (5 # 10) (5 # 10) 1 None None (1, 1)
             None.

Definition wood : Material :=
  mkMaterial "AbajurOutside"%string 0xffd9b3 (8 # 10) 0 1
    (Some "../../../models/produto/2648/textures/mdf-bp-tauari-guararapes-imagem-01-transformed.webp"%string)
    (Some "../../../models/produto/2648/textures/2K-fabric_60_normal.jpg"%string)
    (0, 0)
    (Some "../../../models/produto/2648/textures/tauari roughness.webp"%string).

Definition inox : Material :=
  mkMaterial "AbajurOutside"%string 0xffffff (4 # 10) (7 # 10) 1
    (Some "../../../models/produto/2648/textures/Diffuse.jpg"%string)
    (Some "../../../models/produto/2648/textures/Normal.jpg"%string)
    (5 # 10, 5 # 10)
    (Some "../../../models/produto/2648/textures/Roughness.jpg"%string).

(** The property names every object literal inherits; indexing
    [materialPresets] with one of them yields a function (or the prototype
    object), which is truthy and carries no material parameter. *)
Definition inherited_names : list string :=
  ["constructor"; "toString"; "toLocaleString"; "valueOf"; "hasOwnProperty";
   "isPrototypeOf"; "propertyIsEnumerable"; "__proto__"; "__defineGetter__";
   "__defineSetter__"; "__lookupGetter__"; "__lookupSetter__"]%string.

(** [materialPresets[materialType]], when truthy, as the material
    [new THREE.MeshStandardMaterial(...)] makes of it. *)
Definition preset_material (materialType : string) : option Material :=
  if String.eqb materialType "black" then Some black
  else if String.eqb materialType "wood" then Some wood
  else if String.eqb materialType "inox" then Some inox
  else if existsb (String.eqb materialType) inherited_names
       then Some default_material
       else None.

Inductive Warning :=
| abajur_not_found
| preset_not_found (materialType : string).

(** The part of the page the function touches: the scene and the
    warnings on the console. *)
Record View := mkView {
  root : option Node;
  warnings : list Warning
}.

(** [updateAbajurMaterial(materialType)] (lines 696-718). *)
Definition updateAbajurMaterial (materialType : string) (v : View)
  : (unit + JsError) * View :=
  match root v with
  | None => (inr (TypeError "scene"), v)
  | Some r =>
    match find_node "Abajur" r with
    | None => (inl tt, mkView (root v) (warnings v ++ [abajur_not_found]))
    | Some _ =>
      match preset_material materialType with
      | None =>
        (inl tt,
         mkView (root v) (warnings v ++ [preset_not_found materialType]))
      | Some newMaterial =>
        (inl tt,
         mkView (Some (update_first "Abajur" (swap newMaterial) r))
                (warnings v))
      end
    end
  end.

(** The names of a tree and the materials of its single-material meshes,
    in traversal order. *)
Fixpoint names (t : Node) : list string :=
  match t with
  | mkNode nm _ cs => nm :: flat_map names cs
  end.

Definition kind_materials (k : Kind) : list Material :=
  match k with mesh m => [m] | _ => [] end.

Fixpoint materials (t : Node) : list Material :=
  match t with
  | mkNode _ k cs => kind_materials k ++ flat_map materials cs
  end.

(** The three names the page offers. *)
Definition offered (materialType : string) : Prop :=
  materialType = "black"%string \/ materialType = "wood"%string
  \/ materialType = "inox"%string.

(** A sample lamp: the shade with an outside and an inside mesh, beside a
    support that happens to use a material of the same name. *)
Definition outside_material : Material :=
  mkMaterial "AbajurOutside"%string 0x808080 1 0 1 None None (1, 1) None.

Definition inside_material : Material :=
  mkMaterial "AbajurInside"%string 0xffffff 1 0 1 None None (1, 1) None.

Definition sample_lamp : Node :=
  mkNode "Scene" group
    [mkNode "Support" (mesh outside_material) [];
     mkNode "Abajur" group
       [mkNode "Shade_1" (mesh outside_material) [];
        mkNode "Shade_2" (mesh inside_material) []]].

Definition sample_view : View := mkView (Some sample_lamp) [].

End Material.

(** ** The view toggle ([updateButtons], [toggleView], [toggleViewType],
    lines 1022-1063) *)

Module Toggle.
Import Lifecycle.

(** The four elements the toggle looks up by id, each absent or present:
    the image and the container by their [style.display], the two buttons
    by their [classList]. *)
Record Dom := mkDom {
  carouselImage : option string;
  threeJSContainer : option string;
  imageViewBtn : option (list string);
  threeDViewBtn : option (list string)
}.

Record Browser := mkBrowser {
  world : World;
  dom : Dom
}.

Definition ACTIVE_CLASSES : list string :=
  ["bg-gray-200"; "shadow-inner"; "cursor-default"]%string.

Definition INACTIVE_CLASSES : list string :=
  ["bg-white"; "hover:text-rose-500"]%string.

Definition has_class (cl : list string) (c : string) : bool :=
  existsb (String.eqb c) cl.

(** [classList.add(...tokens)]: each token not yet in the list is
    appended. *)
Definition classList_add (tokens cl : list string) : list string :=
  fold_left (fun acc t => if has_class acc t then acc else acc ++ [t])
            tokens cl.

(** [classList.remove(...tokens)]. *)
Definition classList_remove (tokens cl : list string) : list string :=
  filter (fun c => negb (has_class tokens c)) cl.

Definition set_imageViewBtn (cl : list string) (d : Dom) : Dom :=
  mkDom (carouselImage d) (threeJSContainer d) (Some cl) (threeDViewBtn d).

Definition set_threeDViewBtn (cl : list string) (d : Dom) : Dom :=
  mkDom (carouselImage d) (threeJSContainer d) (imageViewBtn d) (Some cl).

Definition set_image_display (v : string) (d : Dom) : Dom :=
  mkDom (Some v) (threeJSContainer d) (imageViewBtn d) (threeDViewBtn d).

Definition set_container_display (v : string) (d : Dom) : Dom :=
  mkDom (carouselImage d) (Some v) (imageViewBtn d) (threeDViewBtn d).

(** [updateButtons(viewType)] (lines 1022-1042). A button that does not
    exist makes the first access to its [classList] throw; what was
    written before stays written. *)
Definition updateButtons (viewType : string) (d : Dom)
  : (unit + JsError) * Dom :=
  if String.eqb viewType "3DView" then
    match imageViewBtn d with
    | None => (inr (TypeError "imageBtn"), d)
    | Some cl =>
      let d1 := set_imageViewBtn
                  (classList_add INACTIVE_CLASSES
                     (classList_remove ACTIVE_CLASSES cl)) d in
      match threeDViewBtn d1 with
      | None => (inr (TypeError "threeDBtn"), d1)
      | Some cl3 =>
        (inl tt,
         set_threeDViewBtn
           (classList_remove INACTIVE_CLASSES
              (classList_add ACTIVE_CLASSES cl3)) d1)
      end
    end
  else
    match threeDViewBtn d with
    | None => (inr (TypeError "threeDBtn"), d)
    | Some cl3 =>
      let d1 := set_threeDViewBtn
                  (classList_add INACTIVE_CLASSES
                     (classList_remove ACTIVE_CLASSES cl3)) d in
      match imageViewBtn d1 with
      | None => (inr (TypeError "imageBtn"), d1)
      | Some cl =>
        (inl tt,
         set_imageViewBtn
           (classList_remove INACTIVE_CLASSES
              (classList_add ACTIVE_CLASSES cl)) d1)
      end
    end.

(** The activation that [init3DScene] runs when called from [toggleView]:
    the container it looks up is the element [toggleView] has just
    shown. *)
Definition on_this_page (a : Activation) : Activation :=
  mkActivation (mkPage true (webgl_available (page a))) (backdrop a)
               (model a) (order a) (first_delta a).

(** [toggleView(viewType)] (lines 1044-1058). [a] tells how the loads of
    the activation end, which is run to its end here. *)
Definition toggleView (viewType : string) (a : Activation) (b : Browser)
  : (unit + JsError) * Browser :=
  if String.eqb viewType "3DView" then
    match carouselImage (dom b) with
    | None => (inr (TypeError "image"), b)
    | Some _ =>
      let d1 := set_image_display "none" (dom b) in
      match threeJSContainer d1 with
      | None => (inr (TypeError "container"), mkBrowser (world b) d1)
      | Some _ =>
        (inl tt,
         mkBrowser (activate (on_this_page a) (world b))
                   (set_container_display "block" d1))
      end
    end
  else if String.eqb viewType "imageView" then
    let w1 := cleanup3D (world b) in
    match carouselImage (dom b) with
    | None => (inr (TypeError "image"), mkBrowser w1 (dom b))
    | Some _ =>
      let d1 := set_image_display "block" (dom b) in
      match threeJSContainer d1 with
      | None => (inr (TypeError "container"), mkBrowser w1 d1)
      | Some _ =>
        (inl tt, mkBrowser w1 (set_container_display "none" d1))
      end
    end
  else (inl tt, b).

(** [toggleViewType(selected)] (lines 1060-1063). *)
Definition toggleViewType (selected : string) (a : Activation) (b : Browser)
  : (unit + JsError) * Browser :=
  match toggleView selected a b with
  | (inl _, b1) =>
    let (r, d2) := updateButtons selected (dom b1) in
    (r, mkBrowser (world b1) d2)
  | (inr e, b1) => (inr e, b1)
  end.

(** A button is marked as the active one, or as the inactive one. *)
Definition marked_active (cl : list string) : Prop :=
  (forall c, In c ACTIVE_CLASSES -> In c cl)
  /\ (forall c, In c INACTIVE_CLASSES -> ~ In c cl).

Definition marked_inactive (cl : list string) : Prop :=
  (forall c, In c INACTIVE_CLASSES -> In c cl)
  /\ (forall c, In c ACTIVE_CLASSES -> ~ In c cl).

(** The classes the toggle never touches are the same in both lists. *)
Definition same_other_classes (cl cl' : list string) : Prop :=
  forall c, ~ In c ACTIVE_CLASSES -> ~ In c INACTIVE_CLASSES ->
            (In c cl' <-> In c cl).

(** A page with all four elements, the image view showing. *)
Definition sample_dom : Dom :=
  mkDom (Some "block"%string) (Some "none"%string)
        (Some ["px-4"; "bg-gray-200"; "shadow-inner"; "cursor-default"]%string)
        (Some ["px-4"; "bg-white"; "hover:text-rose-500"]%string).

Definition sample_browser : Browser := mkBrowser initial_world sample_dom.

End Toggle.

(** * Properties of the animation controller *)

Module AnimFacts.
Import Anim AnimSpec.

Lemma Qfloor_unique (x : Q) (z : Z) :
  inject_Z z <= x -> x < inject_Z (z + 1) -> Qfloor x = z.
Proof.
  intros Hlo Hhi.
  pose proof (Qfloor_le x) as H1.
  pose proof (Qlt_floor x) as H2.
  assert (inject_Z z < inject_Z (Qfloor x + 1)) as A by lra.
  assert (inject_Z (Qfloor x) < inject_Z (z + 1)) as B by lra.
  rewrite <- Zlt_Qlt in A, B. lia.
Qed.

(** The frame of the clock value [T / 60] is [T]. *)
Lemma frameOf_snapped (T : Z) :
  frameOf (mkMixer (inject_Z T / CONFIG.ANIMATION.FRAMES_PER_SECOND)) = T.
Proof.
  unfold frameOf, Math_round, CONFIG.ANIMATION.FRAMES_PER_SECOND. simpl time.
  assert (inject_Z T / 60 * 60 == inject_Z T) as E by field.
  apply Qfloor_unique.
  - rewrite E. lra.
  - rewrite E, inject_Z_plus. change (inject_Z 1) with 1. lra.
Qed.

Lemma round_ge (x : Q) (T : Z) :
  inject_Z T <= x + (1 # 2) -> (T <= Math_round x)%Z.
Proof.
  intros H. unfold Math_round.
  rewrite <- (Qfloor_Z T). now apply Qfloor_resp_le.
Qed.

Lemma round_le (x : Q) (T : Z) :
  x + (1 # 2) < inject_Z T + 1 -> (Math_round x <= T)%Z.
Proof.
  intros H. unfold Math_round.
  pose proof (Qfloor_le (x + (1 # 2))) as H1.
  assert (inject_Z (Qfloor (x + (1 # 2))) < inject_Z (T + 1)) as A.
  { rewrite inject_Z_plus. change (inject_Z 1) with 1. lra. }
  rewrite <- Zlt_Qlt in A. lia.
Qed.

Lemma all_paused_map_true (l : list Action) :
  Forall (fun a => paused a = true) (map (set_paused true) l).
Proof.
  induction l as [|a l IH]; simpl; constructor; auto.
Qed.

Lemma map_set_paused_twice (b c : bool) (l : list Action) :
  map (set_paused b) (map (set_paused c) l) = map (set_paused b) l.
Proof.
  rewrite map_map. apply map_ext. intros a. reflexivity.
Qed.

(** A tick of a controller that is not playing changes nothing. *)
Lemma run_ticks_stopped (ds : list Q) (s : AnimationState) :
  isPlaying s = false -> run_ticks ds s = (s, []).
Proof.
  intros H. induction ds as [|d ds IH]; simpl; [reflexivity|].
  unfold updateAnimation. destruct (mixer s); rewrite ?H; simpl; now rewrite IH.
Qed.

Lemma settled_completed (s : AnimationState) :
  settled_at (targetFrame s) (completed s).
Proof.
  unfold settled_at, completed, all_paused; simpl.
  repeat split. apply all_paused_map_true.
Qed.

(** The completing branch: taken exactly when the test of lines 879-880
    holds. *)
Lemma tick_completes (dt : Q) (s : AnimationState) (m : Mixer) :
  mixer s = Some m -> isPlaying s = true ->
  reached (direction s) (frameOf m) (targetFrame s) = true ->
  updateAnimation dt s
  = (completed s,
     notify (onFrameCallback s) (targetFrame s) (targetFrame s)
            completed_status).
Proof.
  intros Hm Hp Hr. unfold updateAnimation. rewrite Hm, Hp. simpl negb.
  cbv iota. cbv zeta. rewrite Hr. reflexivity.
Qed.

(** The advancing branch. *)
Lemma tick_advances (dt : Q) (s : AnimationState) (m : Mixer) :
  mixer s = Some m -> isPlaying s = true ->
  reached (direction s) (frameOf m) (targetFrame s) = false ->
  updateAnimation dt s
  = ({| isPlaying := true;
        currentFrame := frameOf m;
        targetFrame := targetFrame s;
        direction := direction s;
        animations := map (set_paused false) (animations s);
        mixer := Some (Mixer_update (dt * inject_Z (direction s) * speed s) m);
        speed := speed s;
        onFrameCallback := onFrameCallback s |},
     notify (onFrameCallback s) (frameOf m) (targetFrame s) playing_status).
Proof.
  intros Hm Hp Hr. unfold updateAnimation. rewrite Hm, Hp. simpl negb.
  cbv iota. cbv zeta. rewrite Hr. reflexivity.
Qed.

Lemma reached_of_remaining (dir T : Z) (m : Mixer) :
  dir = 1%Z \/ dir = (-1)%Z ->
  remaining dir T m < 0 ->
  reached dir (frameOf m) T = true.
Proof.
  unfold remaining, reached, frameOf.
  intros [-> | ->] H; simpl in *.
  - rewrite orb_false_r. apply Z.leb_le. apply round_ge.
    unfold CONFIG.ANIMATION.FRAMES_PER_SECOND in *. lra.
  - apply Z.leb_le. apply round_le.
    unfold CONFIG.ANIMATION.FRAMES_PER_SECOND in *. lra.
Qed.

(** One tick that does not complete moves the clock towards the target by
    at least [eps * speed] seconds. *)
Lemma remaining_after_update (dir T : Z) (m : Mixer) (dt eps v : Q) :
  dir = 1%Z \/ dir = (-1)%Z ->
  eps <= dt -> 0 < v ->
  remaining dir T (Mixer_update (dt * inject_Z dir * v) m)
  <= remaining dir T m - eps * v * CONFIG.ANIMATION.FRAMES_PER_SECOND.
Proof.
  intros Hd Hdt Hv.
  assert (eps * v <= dt * v) as Hmul
      by (apply Qmult_le_compat_r; [assumption | lra]).
  unfold remaining, Mixer_update, CONFIG.ANIMATION.FRAMES_PER_SECOND.
  destruct Hd as [-> | ->]; simpl.
  - change (inject_Z 1) with 1. lra.
  - change (inject_Z (-1)) with (-(1)). lra.
Qed.

Lemma seek_converges_aux (eps : Q) (n : nat) :
  0 < eps ->
  forall (s : AnimationState) (m : Mixer),
    mixer s = Some m -> isPlaying s = true ->
    direction s = 1%Z \/ direction s = (-1)%Z ->
    0 < speed s ->
    remaining (direction s) (targetFrame s) m
    < inject_Z (Z.of_nat n) * (eps * speed s * CONFIG.ANIMATION.FRAMES_PER_SECOND) ->
    forall ds : list Q,
      (S n <= List.length ds)%nat -> Forall (Qle eps) ds ->
      fst (run_ticks ds s) = completed s
      /\ completion_report s (snd (run_ticks ds s)).
Proof.
  intros Heps. induction n as [|n IH]; intros s m Hm Hp Hd Hv Hrem ds Hlen Hds.
  - destruct ds as [|d ds]; [simpl in Hlen; lia|].
    assert (reached (direction s) (frameOf m) (targetFrame s) = true) as Hr.
    { apply reached_of_remaining; [assumption|].
      change (inject_Z (Z.of_nat 0)) with 0 in Hrem. lra. }
    simpl. rewrite (tick_completes d s m Hm Hp Hr).
    rewrite run_ticks_stopped by reflexivity. simpl. split; [reflexivity|].
    exists []. rewrite app_nil_r. split; [reflexivity | constructor].
  - destruct ds as [|d ds]; [simpl in Hlen; lia|].
    destruct (reached (direction s) (frameOf m) (targetFrame s)) eqn:Hr.
    + simpl. rewrite (tick_completes d s m Hm Hp Hr).
      rewrite run_ticks_stopped by reflexivity. simpl. split; [reflexivity|].
      exists []. rewrite app_nil_r. split; [reflexivity | constructor].
    + inversion Hds as [|? ? Hd0 Hds']; subst.
      simpl. rewrite (tick_advances d s m Hm Hp Hr).
      match goal with
      | |- context [run_ticks ds ?s1] => set (s1' := s1)
      end.
      specialize (IH s1' (Mixer_update (d * inject_Z (direction s) * speed s) m)).
      assert (remaining (direction s1') (targetFrame s1')
                (Mixer_update (d * inject_Z (direction s) * speed s) m)
              < inject_Z (Z.of_nat n)
                * (eps * speed s1' * CONFIG.ANIMATION.FRAMES_PER_SECOND)) as Hrem'.
      { subst s1'. simpl.
        pose proof (remaining_after_update (direction s) (targetFrame s) m
                      d eps (speed s) Hd Hd0 Hv) as Hstep.
        rewrite Nat2Z.inj_succ in Hrem. unfold Z.succ in Hrem.
        rewrite inject_Z_plus in Hrem. change (inject_Z 1) with 1 in Hrem.
        lra. }
      destruct (IH eq_refl eq_refl Hd Hv Hrem' ds) as [Hfst [earlier [Hev Hall]]];
        [simpl in Hlen; lia | assumption |].
      destruct (run_ticks ds s1') as [s2 e2]. simpl in *.
      split.
      * rewrite Hfst. unfold completed. subst s1'. simpl.
        now rewrite map_set_paused_twice.
      * exists (notify (onFrameCallback s) (frameOf m) (targetFrame s)
                       playing_status ++ earlier).
        split.
        -- rewrite Hev. subst s1'. simpl. now rewrite app_assoc.
        -- apply Forall_app. split; [|assumption].
           destruct (onFrameCallback s); simpl; repeat constructor.
Qed.

(** For every distance there is a number of ticks that covers it. *)
Lemma enough_ticks (x k : Q) :
  0 < k -> exists n : nat, x < inject_Z (Z.of_nat n) * k.
Proof.
  intros Hk.
  exists (Z.to_nat (Z.max 0 (Qceiling (x / k)) + 1)).
  rewrite Z2Nat.id by lia.
  pose proof (Qle_ceiling (x / k)) as Hc.
  assert (inject_Z (Qceiling (x / k))
          <= inject_Z (Z.max 0 (Qceiling (x / k)))) as Hm
      by (rewrite <- Zle_Qle; lia).
  rewrite inject_Z_plus. change (inject_Z 1) with 1.
  assert (x == x / k * k) as E by (field; lra).
  rewrite E at 1.
  apply Qmult_lt_compat_r; [assumption | lra].
Qed.

Lemma seek_converges (s : AnimationState) (eps : Q) :
  Seeking s -> 0 < speed s -> 0 < eps ->
  exists N : nat,
    forall deltas : list Q,
      (N <= List.length deltas)%nat -> Forall (Qle eps) deltas ->
      fst (run_ticks deltas s) = completed s
      /\ completion_report s (snd (run_ticks deltas s)).
Proof.
  intros (Hm & Hp & Hd) Hv Heps.
  destruct (mixer s) as [m|] eqn:Em; [|congruence].
  destruct (enough_ticks (remaining (direction s) (targetFrame s) m)
              (eps * speed s * CONFIG.ANIMATION.FRAMES_PER_SECOND)) as [n Hn].
  { unfold CONFIG.ANIMATION.FRAMES_PER_SECOND.
    assert (0 < eps * speed s) by (apply Qmult_lt_0_compat; assumption). lra. }
  exists (S n). intros deltas Hlen Hall.
  now apply (seek_converges_aux eps n Heps s m).
Qed.





(** C9. playToFrame(T) with T the frame the mixer stands at (the frame the
    call itself compares with) is a no-op: it returns the AnimationState it
    was given (direction, target, playing flag, stored callback and the
    paused flags of the actions), fires no callback, and the ticks that
    follow run as if the call had not been made. *)
Theorem playToFrame_same_frame_noop (s : AnimationState) (m : Mixer) (T : Z)
    (onFrame : option Callback) :
  mixer s = Some m -> T = frameOf m ->
  playToFrame T onFrame s = (s, [])
  /\ forall deltas : list Q,
      run_ticks deltas (fst (playToFrame T onFrame s)) = run_ticks deltas s.
Proof.
  intros Hm ->.
  assert (playToFrame (frameOf m) onFrame s = (s, [])) as E.
  { unfold playToFrame. rewrite Hm. cbv zeta. now rewrite Z.eqb_refl. }
  split; [exact E|]. intros deltas. now rewrite E.
Qed.

Lemma playToFrame_same_frame_noop_witness :
  playToFrame 9 (Some 3%nat) seeking_30_ticked = (seeking_30_ticked, [])
  /\ forall deltas : list Q,
      run_ticks deltas (fst (playToFrame 9 (Some 3%nat) seeking_30_ticked))
      = run_ticks deltas seeking_30_ticked.
Proof.
  apply (playToFrame_same_frame_noop seeking_30_ticked (mkMixer (15 # 100)) 9
           (Some 3%nat)); reflexivity.
Defined.

(** C10. Without a mixer, playToFrame, stopAnimation and updateAnimation
    return at once: the AnimationState is the one passed in and no callback
    fires. *)
Theorem no_mixer_noop (s : AnimationState) :
  mixer s = None ->
  (forall (T : Z) (onFrame : option Callback),
      playToFrame T onFrame s = (s, []))
  /\ stopAnimation s = s
  /\ (forall dt : Q, updateAnimation dt s = (s, [])).
Proof.
  intros Hm. unfold playToFrame, stopAnimation, updateAnimation.
  rewrite Hm. repeat split.
Qed.

Lemma no_mixer_noop_witness :
  (forall (T : Z) (onFrame : option Callback),
      playToFrame T onFrame initial = (initial, []))
  /\ stopAnimation initial = initial
  /\ (forall dt : Q, updateAnimation dt initial = (initial, [])).
Proof.
  apply (no_mixer_noop initial). reflexivity.
Defined.

(** C6, as stated, fails: the controller seeking to frame 30 from a
    clock at zero satisfies the invariant, and one advancing tick of a tenth
    of a second leaves currentFrame at 0 while the clock stands at frame
    9. *)
Lemma invariant_broken_by_advance :
  controller_invariant seeking_30
  /\ ~ controller_invariant (apply_op (op_advance (1 # 10)) seeking_30).
Proof.
  split.
  - split.
    + split; [discriminate | discriminate].
    + vm_compute. split; [reflexivity | discriminate].
  - intros [_ H]. vm_compute in H. destruct H as [H _]. discriminate.
Qed.

Lemma flags_initialize (clips : list Clip) (s : AnimationState) :
  flags_consistent s -> flags_consistent (initializeAnimations clips s).
Proof.
  intros [H1 H2]. split; simpl; [assumption|].
  intros _. unfold all_paused; simpl.
  rewrite map_map. apply Forall_map. apply Forall_forall. reflexivity.
Qed.

Lemma flags_playToFrame (T : Z) (cb : option Callback) (s : AnimationState) :
  flags_consistent s -> flags_consistent (fst (playToFrame T cb s)).
Proof.
  intros H. unfold playToFrame.
  destruct (mixer s) as [m|]; [|exact H]. cbv zeta.
  destruct (frameOf m =? T)%Z; [exact H|].
  split; simpl; destruct (frameOf m <? T)%Z; discriminate.
Qed.

Lemma flags_updateAnimation (dt : Q) (s : AnimationState) :
  flags_consistent s -> flags_consistent (fst (updateAnimation dt s)).
Proof.
  intros H. unfold updateAnimation.
  destruct (mixer s) as [m|]; [|exact H].
  destruct (isPlaying s) eqn:Hp; simpl negb; cbv iota; [|exact H].
  cbv zeta. destruct (reached _ _ _); simpl.
  - split; simpl; [discriminate|]. intros _. apply all_paused_map_true.
  - destruct H as [H1 H2]. split; simpl; [auto|].
    intros E. now destruct (H1 Hp).
Qed.

Lemma flags_stopAnimation (s : AnimationState) :
  flags_consistent s -> flags_consistent (stopAnimation s).
Proof.
  intros H. unfold stopAnimation. destruct (mixer s); [|exact H].
  split; simpl; [discriminate|]. intros _. apply all_paused_map_true.
Qed.

(** C6, amended. Every operation keeps the flag part of the invariant
    (playing implies a non-zero direction; a zero direction implies that
    every action is paused). currentFrame is the rounded frame of the mixer
    clock after initialize and after a completing tick, where it is the
    target; after an advancing tick it is the rounded frame of the clock
    before that tick; playToFrame, stop and setSpeed write neither
    currentFrame nor the clock. *)
Theorem flags_preserved_frame_lags (o : Op) (s : AnimationState) :
  flags_consistent s ->
  flags_consistent (apply_op o s) /\ frame_effect o s (apply_op o s).
Proof.
  intros H. split.
  - destruct o; simpl.
    + now apply flags_initialize.
    + now apply flags_playToFrame.
    + now apply flags_updateAnimation.
    + now apply flags_stopAnimation.
    + exact H.
  - destruct o as [clips | T cb | dt | | v]; simpl.
    + eexists. split; reflexivity.
    + unfold playToFrame. destruct (mixer s) as [m|] eqn:Em; [|now split].
      cbv zeta. destruct (frameOf m =? T)%Z; now split.
    + unfold updateAnimation. destruct (mixer s) as [m|] eqn:Em; [|reflexivity].
      destruct (isPlaying s) eqn:Ep; simpl negb; cbv iota; [|reflexivity].
      cbv zeta. destruct (reached _ _ _); simpl; [|reflexivity].
      split; [reflexivity|]. eexists. split; [reflexivity|].
      unfold Mixer_setTime. now rewrite frameOf_snapped.
    + unfold stopAnimation. destruct (mixer s) eqn:Em; now split.
    + now split.
Qed.

Lemma flags_preserved_frame_lags_witness :
  flags_consistent (apply_op (op_advance (1 # 10)) seeking_30)
  /\ frame_effect (op_advance (1 # 10)) seeking_30
                  (apply_op (op_advance (1 # 10)) seeking_30).
Proof.
  apply (flags_preserved_frame_lags (op_advance (1 # 10)) seeking_30).
  split; simpl; discriminate.
Defined.

End AnimFacts.

(** * Properties of the time-of-day lighting *)

Module LightingFacts.
Import Scene Lighting Lifecycle SceneSpec.

Lemma daylight_lower (e : Q) : 1 # 10 <= daylight e.
Proof. unfold daylight, Math_max. apply Q.le_max_l. Qed.

Lemma daylight_pos (e : Q) : 0 < daylight e.
Proof. pose proof (daylight_lower e). lra. Qed.

Lemma daylight_mono (e1 e2 : Q) : e1 <= e2 -> daylight e1 <= daylight e2.
Proof.
  intros H. unfold daylight, Math_max, timeOfDay.
  apply Q.max_le_compat_l.
  unfold Qdiv. apply Qmult_le_compat_r; [lra|].
  apply Qlt_le_weak. apply Qinv_lt_0_compat. reflexivity.
Qed.

Lemma daylight_upper (e : Q) : e <= 90 -> daylight e <= 1.
Proof.
  intros H. unfold daylight, Math_max, timeOfDay.
  apply Q.max_lub; [discriminate|].
  apply Qle_shift_div_r; [reflexivity | lra].
Qed.

(** Up to an elevation of 90 degrees the factor is the clamped one. *)
Lemma daylight_is_clamp (e : Q) :
  e <= 90 -> daylight e == clamp (1 # 10) 1 (timeOfDay e).
Proof.
  intros H. unfold daylight, Math_max, clamp.
  assert (timeOfDay e <= 1) as Hle
      by (unfold timeOfDay; apply Qle_shift_div_r; [reflexivity | lra]).
  now rewrite (Q.min_r _ _ Hle).
Qed.

Lemma inverse_scaling_antitone (c f1 f2 : Q) :
  0 <= c -> 0 < f1 -> f1 <= f2 -> c / f2 <= c / f1.
Proof.
  intros Hc H1 H12.
  assert (0 < f2) as H2 by lra.
  apply Qle_shift_div_l; [assumption|].
  assert (c / f2 * f1 == c * f1 / f2) as E by (field; lra).
  rewrite E. apply Qle_shift_div_r; [assumption|].
  rewrite (Qmult_comm c f1), (Qmult_comm c f2).
  apply Qmult_le_compat_r; assumption.
Qed.

(** What [updateDaytime] does once the guard is open. *)
Lemma updateDaytime_ready (e a : Q) (w : World) :
  ready w ->
  exists w',
    updateDaytime e a w = (inl tt, w')
    /\ daytime_applied (daylight e) (sceneState w) (sceneState w')
    /\ animState w' = animState w
    /\ console_errors w' = console_errors w.
Proof.
  intros (Hl & Hs & Hk).
  destruct (sun (sceneState w)) as [sn|] eqn:Es; [|congruence].
  destruct (sky (sceneState w)) as [sk|] eqn:Ek; [|congruence].
  unfold updateDaytime, bind, read, gets, assign, modify, deref, ret.
  rewrite Hl. simpl. rewrite Es. simpl. rewrite Ek. simpl.
  eexists. split; [reflexivity|].
  unfold daytime_applied. simpl. repeat split.
  intros r Hr. destruct (renderer (sceneState w)); simpl in Hr; [|discriminate].
  injection Hr as <-. simpl. unfold Math_max. apply Q.le_max_l.
Qed.

(** C4, as stated, fails above 90 degrees: at an elevation of 270 the
    factor is 2, not the clamped 1, and the hemisphere light of the loaded
    scene is set to 0.5 * 2. *)
Lemma daytime_factor_above_one :
  ~ daylight 270 == clamp (1 # 10) 1 (timeOfDay 270)
  /\ exists h,
      hemisphereLight (sceneState (snd (updateDaytime 270 90 loaded_world)))
      = Some h
      /\ intensity h == 1
      /\ ~ intensity h
           == CONFIG.LIGHTING.HEMISPHERE.INTENSITY
              * clamp (1 # 10) 1 (timeOfDay 270).
Proof.
  split.
  - vm_compute. discriminate.
  - eexists. split; [vm_compute; reflexivity|].
    split; [reflexivity | vm_compute; discriminate].
Qed.

(** C4, amended. Once loading has completed, updateDaytime computes for
    every elevation the factor max(0.1, (elevation + 90) / 180), which has
    no upper bound and is clamp(0.1, 1.0, (elevation + 90) / 180) for
    elevations up to 90; it multiplies the hemisphere and ambient
    intensities by it, divides the point and spot intensities by it, and
    sets the renderer exposure to max(0.3, factor), which is at least
    0.3. *)
Theorem daytime_scaling (e a : Q) (w : World) :
  ready w ->
  daylight e = Math_max (1 # 10) ((e + 90) / 180)
  /\ (e <= 90 -> daylight e == clamp (1 # 10) 1 ((e + 90) / 180))
  /\ exists w',
      updateDaytime e a w = (inl tt, w')
      /\ daytime_applied (daylight e) (sceneState w) (sceneState w').
Proof.
  intros Hr. split; [reflexivity|]. split.
  - apply daylight_is_clamp.
  - destruct (updateDaytime_ready e a w Hr) as (w' & E & Happ & _).
    exists w'. now split.
Qed.

Lemma daytime_scaling_witness :
  daylight 0 = Math_max (1 # 10) ((0 + 90) / 180)
  /\ (0 <= 90 -> daylight 0 == clamp (1 # 10) 1 ((0 + 90) / 180))
  /\ exists w',
      updateDaytime 0 180 loaded_world = (inl tt, w')
      /\ daytime_applied (daylight 0) (sceneState loaded_world)
                         (sceneState w').
Proof.
  apply (daytime_scaling 0 180 loaded_world).
  unfold ready. vm_compute. repeat split; discriminate.
Defined.

(** C8. For elevations from -90 to 90 the intensity factor lies in
    [0.1, 1.0] and does not decrease as the elevation grows, and the point
    and spot intensities that updateDaytime writes do not increase. *)
Theorem daytime_monotone (w : World) (e1 e2 a1 a2 : Q) :
  ready w -> -(90) <= e1 -> e1 <= e2 -> e2 <= 90 ->
  (1 # 10 <= daylight e1 /\ daylight e1 <= daylight e2 /\ daylight e2 <= 1)
  /\ dimmer (pointLight (sceneState (snd (updateDaytime e2 a2 w))))
            (pointLight (sceneState (snd (updateDaytime e1 a1 w))))
  /\ dimmer (spotLight (sceneState (snd (updateDaytime e2 a2 w))))
            (spotLight (sceneState (snd (updateDaytime e1 a1 w)))).
Proof.
  intros Hr Hlo H12 Hhi.
  pose proof (daylight_mono e1 e2 H12) as Hm.
  pose proof (daylight_pos e1) as Hp.
  split.
  - repeat split; [apply daylight_lower | assumption | now apply daylight_upper].
  - destruct (updateDaytime_ready e1 a1 w Hr) as (w1 & E1 & A1 & _).
    destruct (updateDaytime_ready e2 a2 w Hr) as (w2 & E2 & A2 & _).
    rewrite E1, E2. simpl snd.
    destruct A1 as (_ & _ & P1 & S1 & _). destruct A2 as (_ & _ & P2 & S2 & _).
    rewrite P1, P2, S1, S2. unfold dimmer. split.
    + destruct (pointLight (sceneState w)); simpl; [|exact I].
      apply inverse_scaling_antitone; [discriminate | assumption | assumption].
    + destruct (spotLight (sceneState w)); simpl; [|exact I].
      apply inverse_scaling_antitone; [discriminate | assumption | assumption].
Qed.

Lemma daytime_monotone_witness :
  (1 # 10 <= daylight (-(45)) /\ daylight (-(45)) <= daylight 30
   /\ daylight 30 <= 1)
  /\ dimmer (pointLight (sceneState (snd (updateDaytime 30 0 loaded_world))))
            (pointLight (sceneState (snd (updateDaytime (-(45)) 0 loaded_world))))
  /\ dimmer (spotLight (sceneState (snd (updateDaytime 30 0 loaded_world))))
            (spotLight (sceneState (snd (updateDaytime (-(45)) 0 loaded_world)))).
Proof.
  apply (daytime_monotone loaded_world (-(45)) 30 0 0).
  - unfold ready. vm_compute. repeat split; discriminate.
  - vm_compute. discriminate.
  - vm_compute. discriminate.
  - vm_compute. discriminate.
Defined.

End LightingFacts.

(** * Properties of activation and teardown *)

Module LifecycleFacts.
Import Scene Lighting Lifecycle SceneSpec.

(** Teardown leaves the pristine [SceneState], whatever it was. *)
Lemma cleanup3D_scene (w : World) : sceneState (cleanup3D w) = Scene.initial.
Proof. reflexivity. Qed.

Lemma cleanup3D_anim (w : World) : animState (cleanup3D w) = animState w.
Proof. reflexivity. Qed.

(** The first frame of the render loop writes neither [SceneState] nor the
    speed, target and callback of the controller, and does not throw. *)
Lemma initializeAnimation_frame (d : Q) (w : World) :
  exists w',
    initializeAnimation d w = (inl tt, w')
    /\ sceneState w' = sceneState w
    /\ console_errors w' = console_errors w
    /\ Anim.speed (animState w') = Anim.speed (animState w)
    /\ Anim.targetFrame (animState w') = Anim.targetFrame (animState w)
    /\ Anim.onFrameCallback (animState w') = Anim.onFrameCallback (animState w).
Proof.
  unfold initializeAnimation, animate, bind, read, gets, modify, ret, when.
  destruct (renderer (sceneState w)); simpl.
  - destruct (Anim.mixer (animState w)) as [m|] eqn:Em; simpl.
    + unfold Anim.updateAnimation. rewrite Em.
      destruct (Anim.isPlaying (animState w)); simpl.
      * destruct (Anim.reached _ _ _); simpl; eexists; repeat split.
      * eexists; repeat split.
    + eexists; repeat split.
  - eexists; repeat split.
Qed.

(** *** Which steps read and write what *)

Section SceneOnly.
Context {A B : Type}.

Lemma so_ret (a : A) : scene_only (ret a).
Proof. intros w1 w2 H. now split. Qed.

Lemma so_throw (e : JsError) : scene_only (@throw A e).
Proof. intros w1 w2 H. now split. Qed.

Lemma so_bind (m : Js A) (k : A -> Js B) :
  scene_only m -> (forall a, scene_only (k a)) -> scene_only (bind m k).
Proof.
  intros Hm Hk w1 w2 H. unfold bind.
  destruct (Hm w1 w2 H) as [Hf Hs].
  destruct (m w1) as [r1 u1], (m w2) as [r2 u2]. simpl in *. subst r2.
  destruct r1 as [a|e]; [now apply Hk | now split].
Qed.

Lemma so_read (f : SceneState -> A) : scene_only (read f).
Proof. intros w1 w2 H. unfold read, gets. simpl. now rewrite H. Qed.

Lemma so_deref (what : string) (o : option A) : scene_only (deref what o).
Proof. destruct o; [apply so_ret | apply so_throw]. Qed.

Lemma ks_ret (a : A) : keeps_settings (ret a).
Proof. intros w. reflexivity. Qed.

Lemma ks_throw (e : JsError) : keeps_settings (@throw A e).
Proof. intros w. reflexivity. Qed.

Lemma ks_bind (m : Js A) (k : A -> Js B) :
  keeps_settings m -> (forall a, keeps_settings (k a)) ->
  keeps_settings (bind m k).
Proof.
  intros Hm Hk w. unfold bind. specialize (Hm w).
  destruct (m w) as [[a|e] u]; simpl in *; [|assumption].
  now rewrite Hk.
Qed.

Lemma ks_read (f : SceneState -> A) : keeps_settings (read f).
Proof. intros w. reflexivity. Qed.

Lemma ks_deref (what : string) (o : option A) : keeps_settings (deref what o).
Proof. destruct o; [apply ks_ret | apply ks_throw]. Qed.

End SceneOnly.

Lemma so_assign (f : SceneState -> SceneState) : scene_only (assign f).
Proof.
  intros w1 w2 H. unfold assign, modify, with_scene. simpl. now rewrite H.
Qed.

Lemma so_log (l : LogEntry) : scene_only (modify (console_error l)).
Proof. intros w1 w2 H. now split. Qed.

Lemma so_with_anim (f : Anim.AnimationState -> Anim.AnimationState) :
  scene_only (modify (with_anim f)).
Proof. intros w1 w2 H. now split. Qed.

Lemma so_cleanup : scene_only (modify cleanup3D).
Proof. intros w1 w2 H. now split. Qed.

Lemma so_try_catch (body : Js unit) (handler : JsError -> Js unit) :
  scene_only body -> (forall e, scene_only (handler e)) ->
  scene_only (try_catch body handler).
Proof.
  intros Hb Hh w1 w2 H. unfold try_catch.
  destruct (Hb w1 w2 H) as [Hf Hs].
  destruct (body w1) as [r1 u1], (body w2) as [r2 u2]. simpl in *. subst r2.
  destruct r1 as [[]|e]; [now split | now apply Hh].
Qed.

Lemma so_initializeAnimation (d : Q) : scene_only (initializeAnimation d).
Proof.
  intros w1 w2 H.
  destruct (initializeAnimation_frame d w1) as (u1 & E1 & S1 & _).
  destruct (initializeAnimation_frame d w2) as (u2 & E2 & S2 & _).
  rewrite E1, E2. simpl. split; [reflexivity | congruence].
Qed.

Lemma ks_assign (f : SceneState -> SceneState) : keeps_settings (assign f).
Proof. intros w. reflexivity. Qed.

Lemma ks_log (l : LogEntry) : keeps_settings (modify (console_error l)).
Proof. intros w. reflexivity. Qed.

Lemma ks_cleanup : keeps_settings (modify cleanup3D).
Proof. intros w. reflexivity. Qed.

Lemma ks_initializeAnimations (clips : list Anim.Clip) :
  keeps_settings (modify (with_anim (Anim.initializeAnimations clips))).
Proof. intros w. reflexivity. Qed.

Lemma ks_try_catch (body : Js unit) (handler : JsError -> Js unit) :
  keeps_settings body -> (forall e, keeps_settings (handler e)) ->
  keeps_settings (try_catch body handler).
Proof.
  intros Hb Hh w. unfold try_catch. specialize (Hb w).
  destruct (body w) as [[[]|e] u]; simpl in *; [assumption|].
  now rewrite Hh.
Qed.

Lemma ks_initializeAnimation (d : Q) : keeps_settings (initializeAnimation d).
Proof.
  intros w.
  destruct (initializeAnimation_frame d w) as (u & E & _ & _ & H1 & H2 & H3).
  rewrite E. unfold settings. simpl. now rewrite H1, H2, H3.
Qed.

Create HintDb scene_only.
Create HintDb keeps_settings.

#[local] Hint Resolve so_ret so_throw so_read so_deref so_assign so_log
  so_with_anim so_cleanup so_initializeAnimation : scene_only.
#[local] Hint Resolve ks_ret ks_throw ks_read ks_deref ks_assign ks_log
  ks_cleanup ks_initializeAnimations ks_initializeAnimation : keeps_settings.

Ltac flow_step :=
  match goal with
  | |- scene_only (bind _ _) => apply so_bind; [|intros ?]
  | |- scene_only (try_catch _ _) => apply so_try_catch; [|intros ?]
  | |- keeps_settings (bind _ _) => apply ks_bind; [|intros ?]
  | |- keeps_settings (try_catch _ _) => apply ks_try_catch; [|intros ?]
  | |- _ (if ?b then _ else _) => destruct b
  | |- _ (match ?x with _ => _ end) => destruct x
  | |- _ (when ?b _) => destruct b; simpl
  | |- scene_only _ => solve [auto with scene_only]
  | |- keeps_settings _ => solve [auto with keeps_settings]
  end.

Ltac flow := repeat flow_step.

Lemma so_updateDaytime (e a : Q) : scene_only (updateDaytime e a).
Proof. unfold updateDaytime. flow. Qed.


Lemma so_initScene_resume (j : unit + JsError) : scene_only (initScene_resume j).
Proof.
  unfold initScene_resume, setupLighting, setupSky, configureLights,
    scene_add, scene_getObjectByName, initScene_catch.
  pose proof so_updateDaytime. flow.
Qed.


Lemma so_init3DScene_resume (j : unit + JsError) (d : Q) :
  scene_only (init3DScene_resume j d).
Proof. unfold init3DScene_resume. pose proof so_initScene_resume. flow. Qed.


Lemma so_settle_backdrop (o : Outcome) : scene_only (settle_backdrop o).
Proof. unfold settle_backdrop, loadBlenderScene_onLoad, scene_add. flow. Qed.


Lemma so_settle_model (o : Outcome) : scene_only (settle_model o).
Proof.
  unfold settle_model, loadModel_onLoad, scene_add, scene_getObjectByName.
  flow.
Qed.


Lemma so_init3DScene_begin (p : Page) : scene_only (init3DScene_begin p).
Proof. unfold init3DScene_begin, initializeRenderer. flow. Qed.


Lemma so_first_load (a : Activation) : scene_only (first_load a).
Proof.
  unfold first_load. destruct (order a);
    [apply so_settle_backdrop | apply so_settle_model].
Qed.

Lemma so_second_load (a : Activation) : scene_only (second_load a).
Proof.
  unfold second_load. destruct (order a);
    [apply so_settle_model | apply so_settle_backdrop].
Qed.



(** The [SceneState] an activation ends in is determined by the
    [SceneState] it starts from. *)
Lemma activate_scene_indep (a : Activation) (w1 w2 : World) :
  sceneState w1 = sceneState w2 ->
  sceneState (activate a w1) = sceneState (activate a w2).
Proof.
  intros H. unfold activate, activate_trace.
  destruct (so_init3DScene_begin (page a) w1 w2 H) as [Hf Hs].
  destruct (init3DScene_begin (page a) w1) as [r1 u1],
           (init3DScene_begin (page a) w2) as [r2 u2].
  simpl in Hf, Hs. subst r2.
  destruct r1 as [[|]|e]; simpl; try assumption.
  destruct (so_first_load a u1 u2 Hs) as [Hf1 Hs1].
  destruct (first_load a u1) as [q1 v1], (first_load a u2) as [q2 v2].
  simpl in Hf1, Hs1. subst q2.
  destruct q1 as [[]|e].
  - destruct (so_second_load a v1 v2 Hs1) as [Hf2 Hs2].
    destruct (second_load a v1) as [p1 x1], (second_load a v2) as [p2 x2].
    simpl in Hf2, Hs2. subst p2. simpl.
    now apply so_init3DScene_resume.
  - simpl. apply so_second_load. now apply so_init3DScene_resume.
Qed.

Lemma activate_trace_scene_indep (a : Activation) (w1 w2 : World) :
  sceneState w1 = sceneState w2 ->
  map sceneState (activate_trace a w1) = map sceneState (activate_trace a w2).
Proof.
  intros H. unfold activate_trace.
  destruct (so_init3DScene_begin (page a) w1 w2 H) as [Hf Hs].
  destruct (init3DScene_begin (page a) w1) as [r1 u1],
           (init3DScene_begin (page a) w2) as [r2 u2].
  simpl in Hf, Hs. subst r2.
  destruct r1 as [[|]|e]; simpl; try (now rewrite Hs).
  destruct (so_first_load a u1 u2 Hs) as [Hf1 Hs1].
  destruct (first_load a u1) as [q1 v1], (first_load a u2) as [q2 v2].
  simpl in Hf1, Hs1. subst q2.
  destruct q1 as [[]|e].
  - destruct (so_second_load a v1 v2 Hs1) as [Hf2 Hs2].
    destruct (second_load a v1) as [p1 x1], (second_load a v2) as [p2 x2].
    simpl in Hf2, Hs2. subst p2. simpl.
    rewrite Hs, Hs1. do 3 f_equal. now apply so_init3DScene_resume.
  - simpl. rewrite Hs.
    assert (sceneState (snd (init3DScene_resume (inr e) (first_delta a) v1))
            = sceneState (snd (init3DScene_resume (inr e) (first_delta a) v2)))
      as Hr by (now apply so_init3DScene_resume).
    rewrite Hr. do 3 f_equal. now apply so_second_load.
Qed.


(** *** Running an activation on symbolic assets *)

Lemma lookup_app (n : string) (l1 l2 : Graph) :
  is_some (getObjectByName n (l1 ++ l2))
  = is_some (getObjectByName n l1) || is_some (getObjectByName n l2).
Proof.
  unfold getObjectByName. induction l1 as [|o l1 IH]; simpl; [reflexivity|].
  destruct (String.eqb (name o) n); [reflexivity | assumption].
Qed.

(** Evaluate one call of the script, leaving graph lookups and graph
    concatenations as they are. *)
Ltac eval_call t :=
  let r := eval cbv -[app getObjectByName] in t in change t with r.


Ltac run_begin :=
  unfold activate, activate_trace, first_load, second_load;
  cbv beta iota delta [page backdrop model order first_delta
                       settle_backdrop settle_model];
  match goal with
  | |- context [init3DScene_begin ?p ?w] => eval_call (init3DScene_begin p w)
  end;
  cbv beta iota.

Ltac run_call :=
  match goal with
  | |- context [loadBlenderScene_onLoad ?g ?w] =>
    eval_call (loadBlenderScene_onLoad g w)
  | |- context [loadModel_onLoad ?g ?w] => eval_call (loadModel_onLoad g w)
  | |- context [init3DScene_resume ?j ?d ?w] =>
    eval_call (init3DScene_resume j d w)
  | |- context [@throw unit ?e ?w] => eval_call (@throw unit e w)
  end;
  cbv beta iota;
  repeat match goal with
         | |- context [@nil Object3D ++ ?l] => change (@nil Object3D ++ l) with l
         end.


(** C2 at its failing input: the backdrop resolves, the model load (the
    second of the two) rejects. The rejection is logged and the loading
    flag cleared, but the renderer, scene, camera, controls and backdrop
    stay in place, the render loop is started, and the guard of
    init3DScene makes a further activation a no-op. *)
Theorem rejected_load_keeps_render_context (g : Gltf) (e : JsError)
    (ord : Order) (d : Q) :
  let w := activate (mkActivation sample_page (Resolved g) (Rejected e) ord d)
                    initial_world in
  all_null (sceneState w) = false
  /\ is_some (renderer (sceneState w)) = true
  /\ is_some (scene (sceneState w)) = true
  /\ is_some (camera (sceneState w)) = true
  /\ is_some (controls (sceneState w)) = true
  /\ is_some (blenderScene (sceneState w)) = true
  /\ isLoading (sceneState w) = false
  /\ loadingComplete (sceneState w) = false
  /\ console_errors w = [log_error "Error during scene initialization:" e]
  /\ render_loops w = 1%nat
  /\ forall a', activate a' w = w.
Proof.
  destruct g as [[nb pb sb] ab]. cbv zeta.
  destruct ord; run_begin; repeat run_call;
    cbv -[app getObjectByName]; repeat split.
Qed.







End LifecycleFacts.

(** * Further properties of the animation controller *)

Module AnimExtra.
Import Anim AnimSpec ReportSpec AnimFacts.

Lemma run_ticks_no_mixer (ds : list Q) (s : AnimationState) :
  mixer s = None -> run_ticks ds s = (s, []).
Proof.
  intros H. induction ds as [|d ds IH]; simpl; [reflexivity|].
  unfold updateAnimation. rewrite H. now rewrite IH.
Qed.

(** X1. stopAnimation is idempotent, leaves the clock, currentFrame,
    target, speed and callback where they are, and halts the seek: the
    ticks after it change nothing and fire no callback. *)
Theorem stop_halts_and_is_idempotent (s : AnimationState) :
  stopAnimation (stopAnimation s) = stopAnimation s
  /\ (forall deltas : list Q,
         run_ticks deltas (stopAnimation s) = (stopAnimation s, []))
  /\ mixer (stopAnimation s) = mixer s
  /\ currentFrame (stopAnimation s) = currentFrame s
  /\ targetFrame (stopAnimation s) = targetFrame s
  /\ speed (stopAnimation s) = speed s
  /\ onFrameCallback (stopAnimation s) = onFrameCallback s.
Proof.
  unfold stopAnimation.
  destruct (mixer s) as [m|] eqn:Em.
  - simpl. rewrite map_set_paused_twice.
    repeat split; try assumption.
    intros deltas. now apply run_ticks_stopped.
  - rewrite Em. repeat split; try assumption.
    intros deltas. now apply run_ticks_no_mixer.
Qed.

Lemma reached_false_side (dir cur tgt : Z) :
  reached dir cur tgt = false ->
  ((0 < dir)%Z -> (cur < tgt)%Z) /\ ((dir < 0)%Z -> (tgt < cur)%Z).
Proof.
  unfold reached. intros H. apply orb_false_elim in H. destruct H as [H1 H2].
  split; intros Hd.
  - apply Z.ltb_lt in Hd. rewrite Hd in H1. simpl in H1.
    now apply Z.leb_gt in H1.
  - apply Z.ltb_lt in Hd. rewrite Hd in H2. simpl in H2.
    now apply Z.leb_gt in H2.
Qed.

(** X2. Whatever the tick deltas, no report of a run of ticks shows a
    frame beyond the target: reports of a forward seek carry a frame at
    most the target, reports of a backward seek a frame at least the
    target, and all carry the controller's target. *)
Theorem reports_never_pass_target (deltas : list Q) (s : AnimationState) :
  Forall (within_target (direction s) (targetFrame s))
         (snd (run_ticks deltas s)).
Proof.
  revert s. induction deltas as [|d ds IH]; intros s; simpl; [constructor|].
  destruct (mixer s) as [m|] eqn:Em.
  2:{ unfold updateAnimation. rewrite Em.
      rewrite run_ticks_no_mixer by assumption. constructor. }
  destruct (isPlaying s) eqn:Ep.
  2:{ unfold updateAnimation. rewrite Em, Ep. simpl.
      rewrite run_ticks_stopped by assumption. constructor. }
  destruct (reached (direction s) (frameOf m) (targetFrame s)) eqn:Er.
  - rewrite (tick_completes d s m Em Ep Er).
    rewrite run_ticks_stopped by reflexivity. rewrite app_nil_r.
    destruct (onFrameCallback s); simpl; constructor; [|constructor].
    unfold within_target; simpl. repeat split; intros; lia.
  - rewrite (tick_advances d s m Em Ep Er).
    match goal with
    | |- context [run_ticks ds ?s1] => specialize (IH s1); simpl in IH;
                                         destruct (run_ticks ds s1) as [s2 e2]
    end.
    simpl in *. apply Forall_app. split; [|assumption].
    destruct (reached_false_side _ _ _ Er) as [Hf Hb].
    destruct (onFrameCallback s); simpl; constructor; [|constructor].
    unfold within_target; simpl. repeat split; intros Hd;
      [specialize (Hf Hd) | specialize (Hb Hd)]; lia.
Qed.

Lemma reports_go_to_stored_callback (deltas : list Q) (s : AnimationState) :
  Forall (delivered_to (onFrameCallback s)) (snd (run_ticks deltas s)).
Proof.
  revert s. induction deltas as [|d ds IH]; intros s; simpl; [constructor|].
  destruct (mixer s) as [m|] eqn:Em.
  2:{ unfold updateAnimation. rewrite Em.
      rewrite run_ticks_no_mixer by assumption. constructor. }
  destruct (isPlaying s) eqn:Ep.
  2:{ unfold updateAnimation. rewrite Em, Ep. simpl.
      rewrite run_ticks_stopped by assumption. constructor. }
  destruct (reached (direction s) (frameOf m) (targetFrame s)) eqn:Er.
  - rewrite (tick_completes d s m Em Ep Er).
    rewrite run_ticks_stopped by reflexivity. rewrite app_nil_r.
    destruct (onFrameCallback s); simpl; repeat constructor.
  - rewrite (tick_advances d s m Em Ep Er).
    match goal with
    | |- context [run_ticks ds ?s1] => specialize (IH s1); simpl in IH;
                                         destruct (run_ticks ds s1) as [s2 e2]
    end.
    simpl in *. apply Forall_app. split; [|assumption].
    destruct (onFrameCallback s); simpl; repeat constructor.
Qed.

(** X3. A playToFrame that starts a seek replaces the stored callback:
    its "started" report and every report of the ticks that follow go to
    the callback passed with it, and when none is passed (the default
    null) neither the call nor the ticks report anything. *)
Theorem reports_go_to_latest_callback (s : AnimationState) (m : Mixer)
    (T : Z) (onFrame : option Callback) (deltas : list Q) :
  mixer s = Some m -> frameOf m <> T ->
  let reports := snd (playToFrame T onFrame s)
                 ++ snd (run_ticks deltas (fst (playToFrame T onFrame s))) in
  Forall (delivered_to onFrame) reports
  /\ (onFrame = None -> reports = []).
Proof.
  intros Hm Hne. cbv zeta.
  assert (Forall (delivered_to onFrame)
            (snd (playToFrame T onFrame s)
             ++ snd (run_ticks deltas (fst (playToFrame T onFrame s))))) as HF.
  { apply Forall_app. split.
    - unfold playToFrame. rewrite Hm. cbv zeta.
      apply Z.eqb_neq in Hne. rewrite Hne. simpl.
      destruct onFrame; simpl; repeat constructor.
    - pose proof (reports_go_to_stored_callback deltas
                    (fst (playToFrame T onFrame s))) as H.
      unfold playToFrame in H at 1. rewrite Hm in H. cbv zeta in H.
      apply Z.eqb_neq in Hne. rewrite Hne in H. simpl in H. exact H. }
  split; [exact HF|].
  intros ->. destruct (_ ++ _) as [|e l]; [reflexivity|].
  inversion HF as [|? ? He _]. discriminate He.
Qed.

Lemma reports_go_to_latest_callback_witness :
  let reports := snd (playToFrame 0 None seeking_30_ticked)
                 ++ snd (run_ticks [1 # 10; 1 # 10]
                           (fst (playToFrame 0 None seeking_30_ticked))) in
  Forall (delivered_to None) reports
  /\ (@None Callback = None -> reports = []).
Proof.
  apply (reports_go_to_latest_callback seeking_30_ticked (mkMixer (15 # 100))
           0 None [1 # 10; 1 # 10]).
  - reflexivity.
  - vm_compute. discriminate.
Defined.

Lemma reached_false_of_side (dir cur tgt : Z) :
  ((0 < dir)%Z -> (cur < tgt)%Z) -> ((dir < 0)%Z -> (tgt < cur)%Z) ->
  reached dir cur tgt = false.
Proof.
  intros Hf Hb. unfold reached. apply orb_false_intro.
  - destruct (0 <? dir)%Z eqn:E; [|reflexivity]. simpl.
    apply Z.ltb_lt in E. apply Z.leb_gt. auto.
  - destruct (dir <? 0)%Z eqn:E; [|reflexivity]. simpl.
    apply Z.ltb_lt in E. apply Z.leb_gt. auto.
Qed.

Lemma Math_round_mono (x y : Q) : x <= y -> (Math_round x <= Math_round y)%Z.
Proof. intros H. unfold Math_round. apply Qfloor_resp_le. lra. Qed.

(** With a speed that is not positive, a tick moves the clock away from
    the target or not at all. *)
Lemma backward_step (dir : Z) (d v t : Q) :
  0 <= d -> v <= 0 ->
  ((0 < dir)%Z -> t + d * inject_Z dir * v <= t)
  /\ ((dir < 0)%Z -> t <= t + d * inject_Z dir * v).
Proof.
  intros Hd Hv.
  assert (0 <= d * - v) as Hdv by (apply Qmult_le_0_compat; lra).
  split; intros Hdir.
  - assert (0 <= inject_Z dir) as Hi
        by (change 0 with (inject_Z 0); rewrite <- Zle_Qle; lia).
    pose proof (Qmult_le_0_compat _ _ Hdv Hi) as H.
    assert (d * inject_Z dir * v == - (d * - v * inject_Z dir)) as E by ring.
    rewrite E. lra.
  - assert (0 <= - inject_Z dir) as Hi.
    { assert (inject_Z dir <= inject_Z 0) as A by (rewrite <- Zle_Qle; lia).
      change (inject_Z 0) with 0 in A. lra. }
    pose proof (Qmult_le_0_compat _ _ Hdv Hi) as H.
    assert (d * inject_Z dir * v == d * - v * - inject_Z dir) as E by ring.
    rewrite E. lra.
Qed.

(** X4. setAnimationSpeed accepts any number; with a speed of zero or
    below, a seek that has not met its completion test never completes:
    after any number of ticks (deltas not negative) the controller is still
    playing and no "completed" report was made. *)
Theorem nonpositive_speed_never_completes (deltas : list Q)
    (s : AnimationState) (m : Mixer) :
  mixer s = Some m -> isPlaying s = true ->
  reached (direction s) (frameOf m) (targetFrame s) = false ->
  speed s <= 0 -> Forall (Qle 0) deltas ->
  isPlaying (fst (run_ticks deltas s)) = true
  /\ Forall (fun e => is_completed e = false) (snd (run_ticks deltas s)).
Proof.
  revert s m. induction deltas as [|d ds IH]; intros s m Hm Hp Hr Hv Hds.
  - simpl. split; [assumption | constructor].
  - inversion Hds as [|? ? Hd Hds']; subst.
    simpl. rewrite (tick_advances d s m Hm Hp Hr).
    match goal with
    | |- context [run_ticks ds ?s1] =>
      specialize (IH s1 (Mixer_update (d * inject_Z (direction s) * speed s) m))
    end.
    simpl in IH.
    destruct IH as [IH1 IH2]; try assumption; try reflexivity.
    { destruct (reached_false_side _ _ _ Hr) as [Hf Hb].
      destruct (backward_step (direction s) d (speed s) (time m) Hd Hv)
        as [Sf Sb].
      apply reached_false_of_side; intros Hdir.
      - specialize (Hf Hdir). specialize (Sf Hdir).
        assert (frameOf (Mixer_update (d * inject_Z (direction s) * speed s) m)
                <= frameOf m)%Z; [|lia].
        unfold frameOf, Mixer_update. simpl time. apply Math_round_mono.
        unfold CONFIG.ANIMATION.FRAMES_PER_SECOND. lra.
      - specialize (Hb Hdir). specialize (Sb Hdir).
        assert (frameOf m
                <= frameOf (Mixer_update
                              (d * inject_Z (direction s) * speed s) m))%Z;
          [|lia].
        unfold frameOf, Mixer_update. simpl time. apply Math_round_mono.
        unfold CONFIG.ANIMATION.FRAMES_PER_SECOND. lra. }
    match goal with
    | |- context [run_ticks ds ?s1] => destruct (run_ticks ds s1) as [s2 e2]
    end.
    simpl in *. split; [assumption|].
    apply Forall_app. split; [|assumption].
    destruct (onFrameCallback s); simpl; repeat constructor.
Qed.

Lemma nonpositive_speed_never_completes_witness :
  isPlaying (fst (run_ticks [1 # 60; 1; 5] stalled_seek)) = true
  /\ Forall (fun e => is_completed e = false)
            (snd (run_ticks [1 # 60; 1; 5] stalled_seek)).
Proof.
  apply (nonpositive_speed_never_completes [1 # 60; 1; 5] stalled_seek
           (mkMixer 0)).
  - reflexivity.
  - reflexivity.
  - reflexivity.
  - vm_compute. discriminate.
  - repeat constructor; vm_compute; discriminate.
Defined.

(** X5. initializeAnimations rebuilds mixer and actions but clears
    neither the playing flag nor direction and target: a seek that was
    under way when the model is loaded again resumes on the new mixer from
    frame 0, and the ticks that follow end at the old target. *)
Theorem reload_resumes_seek (s : AnimationState) (clips : list Clip)
    (eps : Q) :
  isPlaying s = true ->
  direction s = 1%Z \/ direction s = (-1)%Z ->
  0 < speed s -> 0 < eps ->
  Seeking (initializeAnimations clips s)
  /\ exists N : nat,
      forall deltas : list Q,
        (N <= List.length deltas)%nat -> Forall (Qle eps) deltas ->
        settled_at (targetFrame s)
                   (fst (run_ticks deltas (initializeAnimations clips s))).
Proof.
  intros Hp Hd Hv Heps.
  assert (Seeking (initializeAnimations clips s)) as Hs.
  { unfold Seeking. simpl. repeat split; [discriminate | assumption | assumption]. }
  split; [exact Hs|].
  destruct (seek_converges (initializeAnimations clips s) eps Hs Hv Heps)
    as [N HN].
  exists N. intros deltas Hlen Hall.
  destruct (HN deltas Hlen Hall) as [Hfst _]. rewrite Hfst.
  apply (settled_completed (initializeAnimations clips s)).
Qed.

Lemma reload_resumes_seek_witness :
  Seeking (initializeAnimations ["hinge"%string] seeking_30_ticked)
  /\ exists N : nat,
      forall deltas : list Q,
        (N <= List.length deltas)%nat -> Forall (Qle (1 # 60)) deltas ->
        settled_at (targetFrame seeking_30_ticked)
                   (fst (run_ticks deltas
                           (initializeAnimations ["hinge"%string]
                                                 seeking_30_ticked))).
Proof.
  apply (reload_resumes_seek seeking_30_ticked ["hinge"%string] (1 # 60)).
  - reflexivity.
  - now left.
  - reflexivity.
  - reflexivity.
Defined.

End AnimExtra.

(** * Further properties of the time-of-day lighting *)

Module LightingExtra.
Import Scene Lighting Lifecycle SceneSpec DaytimeSpec LightingFacts.

(** Behind its guard [updateDaytime] performs exactly [daytime_writes]. *)
Lemma updateDaytime_ready_eq (e a : Q) (w : World) :
  ready w ->
  updateDaytime e a w = (inl tt, with_scene (daytime_writes e a) w).
Proof.
  intros (Hl & Hs & Hk).
  destruct w as [ss an ce fe rl].
  destruct ss as [sc rd cam ctl sup cb sb bs sk sn pl sl al hl lc il].
  simpl in Hl, Hs, Hk.
  destruct sn as [sn|]; [|congruence].
  destruct sk as [sk|]; [|congruence].
  subst. cbv -[daylight Qdiv Qmult Qminus Math_max]. reflexivity.
Qed.

Lemma ready_after_writes (e a : Q) (w : World) :
  ready w -> ready (with_scene (daytime_writes e a) w).
Proof.
  intros (Hl & Hs & Hk). unfold ready. simpl.
  repeat split; [assumption | discriminate |].
  destruct (sky (sceneState w)); [discriminate | congruence].
Qed.

Lemma set_intensity_twice (u v : Q) (o : Object3D) :
  set_intensity v (set_intensity u o) = set_intensity v o.
Proof. reflexivity. Qed.

(** X6. The scaling of updateDaytime is absolute, not cumulative: once
    loading has completed, a call overwrites what an earlier call wrote, so
    two calls in a row leave the page exactly as the second one alone would
    (and repeating a call changes nothing). *)
Theorem daytime_last_call_wins (w : World) (e1 a1 e2 a2 : Q) :
  ready w ->
  ready (snd (updateDaytime e1 a1 w))
  /\ updateDaytime e2 a2 (snd (updateDaytime e1 a1 w)) = updateDaytime e2 a2 w.
Proof.
  intros Hr.
  rewrite (updateDaytime_ready_eq e1 a1 w Hr). simpl snd.
  pose proof (ready_after_writes e1 a1 w Hr) as Hr1.
  split; [exact Hr1|].
  rewrite (updateDaytime_ready_eq e2 a2 _ Hr1).
  rewrite (updateDaytime_ready_eq e2 a2 w Hr).
  f_equal.
  destruct w as [ss an ce fe rl].
  destruct ss as [sc rd cam ctl sup cb sb bs sk sn pl sl al hl lc il].
  destruct sk, hl, al, pl, sl, rd;
    cbv -[daylight Qdiv Qmult Qminus Math_max]; reflexivity.
Qed.

Lemma daytime_last_call_wins_witness :
  ready (snd (updateDaytime (-(45)) 10 loaded_world))
  /\ updateDaytime 30 20 (snd (updateDaytime (-(45)) 10 loaded_world))
     = updateDaytime 30 20 loaded_world.
Proof.
  apply (daytime_last_call_wins loaded_world (-(45)) 10 30 20).
  unfold ready. vm_compute. repeat split; discriminate.
Defined.

(** X7. Over all elevations, with no range restriction, a higher
    elevation never dims what updateDaytime scales directly: the
    hemisphere and ambient intensities and the renderer exposure it writes
    do not decrease. *)
Theorem daytime_direct_scaling_monotone (w : World) (e1 e2 a1 a2 : Q) :
  ready w -> e1 <= e2 ->
  dimmer (hemisphereLight (sceneState (snd (updateDaytime e1 a1 w))))
         (hemisphereLight (sceneState (snd (updateDaytime e2 a2 w))))
  /\ dimmer (ambientLight (sceneState (snd (updateDaytime e1 a1 w))))
            (ambientLight (sceneState (snd (updateDaytime e2 a2 w))))
  /\ at_most (exposure (sceneState (snd (updateDaytime e1 a1 w))))
             (exposure (sceneState (snd (updateDaytime e2 a2 w)))).
Proof.
  intros Hr H12.
  pose proof (daylight_mono e1 e2 H12) as Hm.
  rewrite (updateDaytime_ready_eq e1 a1 w Hr).
  rewrite (updateDaytime_ready_eq e2 a2 w Hr).
  unfold with_scene, daytime_writes, exposure, dimmer, at_most. simpl.
  repeat split.
  - destruct (hemisphereLight (sceneState w)); simpl; [|exact I].
    rewrite !(Qmult_comm CONFIG.LIGHTING.HEMISPHERE.INTENSITY).
    apply Qmult_le_compat_r; [assumption | discriminate].
  - destruct (ambientLight (sceneState w)); simpl; [|exact I].
    rewrite !(Qmult_comm CONFIG.LIGHTING.AMBIENT.INTENSITY).
    apply Qmult_le_compat_r; [assumption | discriminate].
  - destruct (renderer (sceneState w)); simpl; [|exact I].
    unfold Math_max. now apply Q.max_le_compat_l.
Qed.

Lemma daytime_direct_scaling_monotone_witness :
  dimmer (hemisphereLight (sceneState (snd (updateDaytime 100 0 loaded_world))))
         (hemisphereLight (sceneState (snd (updateDaytime 200 0 loaded_world))))
  /\ dimmer (ambientLight (sceneState (snd (updateDaytime 100 0 loaded_world))))
            (ambientLight (sceneState (snd (updateDaytime 200 0 loaded_world))))
  /\ at_most (exposure (sceneState (snd (updateDaytime 100 0 loaded_world))))
             (exposure (sceneState (snd (updateDaytime 200 0 loaded_world)))).
Proof.
  apply (daytime_direct_scaling_monotone loaded_world 100 200 0 0).
  - unfold ready. vm_compute. repeat split; discriminate.
  - vm_compute. discriminate.
Defined.

End LightingExtra.

(** * Further properties of activation and teardown *)

Module LifecycleExtra.
Import Scene Lighting Lifecycle SceneSpec DaytimeSpec LifecycleSpec
  LightingFacts LifecycleFacts LightingExtra.

(** *** An activation appends to the log and reads only the scene *)

Section Framed.
Context {A B : Type}.

Lemma fr_ret (a : A) : framed (ret a).
Proof. intros pre n w1 w2 H. now split. Qed.

Lemma fr_throw (e : JsError) : framed (@throw A e).
Proof. intros pre n w1 w2 H. now split. Qed.

Lemma fr_bind (m : Js A) (k : A -> Js B) :
  framed m -> (forall a, framed (k a)) -> framed (bind m k).
Proof.
  intros Hm Hk pre n w1 w2 H. unfold bind.
  destruct (Hm pre n w1 w2 H) as [Hf Hs].
  destruct (m w1) as [r1 u1], (m w2) as [r2 u2]. simpl in *. subst r2.
  destruct r1 as [a|e]; [now apply Hk | now split].
Qed.

Lemma fr_read (f : SceneState -> A) : framed (read f).
Proof.
  intros pre n w1 w2 (H1 & H2 & H3). unfold read, gets. simpl.
  rewrite H1. split; [reflexivity|]. repeat split; assumption.
Qed.

Lemma fr_deref (what : string) (o : option A) : framed (deref what o).
Proof. destruct o; [apply fr_ret | apply fr_throw]. Qed.

End Framed.

Lemma fr_assign (f : SceneState -> SceneState) : framed (assign f).
Proof.
  intros pre n w1 w2 (H1 & H2 & H3).
  unfold assign, modify, with_scene, same_but_log. simpl.
  now rewrite H1.
Qed.

Lemma fr_log (l : LogEntry) : framed (modify (console_error l)).
Proof.
  intros pre n w1 w2 (H1 & H2 & H3).
  unfold modify, console_error, same_but_log. simpl.
  rewrite H2, app_assoc. auto.
Qed.

Lemma fr_with_anim (f : Anim.AnimationState -> Anim.AnimationState) :
  framed (modify (with_anim f)).
Proof. intros pre n w1 w2 H. now split. Qed.

Lemma fr_cleanup : framed (modify cleanup3D).
Proof.
  intros pre n w1 w2 (H1 & H2 & H3).
  unfold modify, cleanup3D, with_scene, same_but_log. simpl. auto.
Qed.

Lemma fr_try_catch (body : Js unit) (handler : JsError -> Js unit) :
  framed body -> (forall e, framed (handler e)) ->
  framed (try_catch body handler).
Proof.
  intros Hb Hh pre n w1 w2 H. unfold try_catch.
  destruct (Hb pre n w1 w2 H) as [Hf Hs].
  destruct (body w1) as [r1 u1], (body w2) as [r2 u2]. simpl in *. subst r2.
  destruct r1 as [[]|e]; [now split | now apply Hh].
Qed.

(** The first frame: a loop starts exactly when there is a renderer. *)
Lemma initializeAnimation_loops (d : Q) (w : World) :
  render_loops (snd (initializeAnimation d w))
  = if is_some (renderer (sceneState w))
    then S (render_loops w) else render_loops w.
Proof.
  unfold initializeAnimation, animate, bind, read, gets, modify, ret, when.
  destruct (renderer (sceneState w)); simpl; [|reflexivity].
  destruct (Anim.mixer (animState w)); simpl; [|reflexivity].
  destruct (Anim.updateAnimation d (animState w)); reflexivity.
Qed.

Lemma fr_initializeAnimation (d : Q) : framed (initializeAnimation d).
Proof.
  intros pre n w1 w2 (H1 & H2 & H3).
  pose proof (initializeAnimation_loops d w1) as L1.
  pose proof (initializeAnimation_loops d w2) as L2.
  destruct (initializeAnimation_frame d w1) as (u1 & E1 & S1 & C1 & _).
  destruct (initializeAnimation_frame d w2) as (u2 & E2 & S2 & C2 & _).
  rewrite E1 in *. rewrite E2 in *. simpl in *.
  split; [reflexivity|]. unfold same_but_log.
  rewrite S1, S2, C1, C2, L1, L2, H1.
  repeat split; try assumption.
  destruct (is_some (renderer (sceneState w2))); lia.
Qed.

Create HintDb framed.
#[local] Hint Resolve fr_ret fr_throw fr_read fr_deref fr_assign fr_log
  fr_with_anim fr_cleanup fr_initializeAnimation : framed.

Ltac framed_step :=
  match goal with
  | |- framed (bind _ _) => apply fr_bind; [|intros ?]
  | |- framed (try_catch _ _) => apply fr_try_catch; [|intros ?]
  | |- framed (if ?b then _ else _) => destruct b
  | |- framed (match ?x with _ => _ end) => destruct x
  | |- framed (when ?b _) => destruct b; simpl
  | |- framed _ => solve [auto with framed]
  end.

Ltac framed := repeat framed_step.

Lemma fr_updateDaytime (e a : Q) : framed (updateDaytime e a).
Proof. unfold updateDaytime. framed. Qed.

Lemma fr_initScene_resume (j : unit + JsError) : framed (initScene_resume j).
Proof.
  unfold initScene_resume, setupLighting, setupSky, configureLights,
    scene_add, scene_getObjectByName, initScene_catch.
  pose proof fr_updateDaytime. framed.
Qed.

Lemma fr_init3DScene_resume (j : unit + JsError) (d : Q) :
  framed (init3DScene_resume j d).
Proof. unfold init3DScene_resume. pose proof fr_initScene_resume. framed. Qed.

Lemma fr_first_load (a : Activation) : framed (first_load a).
Proof.
  unfold first_load, settle_backdrop, settle_model, loadBlenderScene_onLoad,
    loadModel_onLoad, scene_add, scene_getObjectByName.
  framed.
Qed.

Lemma fr_second_load (a : Activation) : framed (second_load a).
Proof.
  unfold second_load, settle_backdrop, settle_model, loadBlenderScene_onLoad,
    loadModel_onLoad, scene_add, scene_getObjectByName.
  framed.
Qed.

Lemma fr_init3DScene_begin (p : Page) : framed (init3DScene_begin p).
Proof. unfold init3DScene_begin, initializeRenderer. framed. Qed.

(** What an activation logs and how many loops it starts is what it does
    on a fresh page, whatever was logged and started before. *)
Lemma activate_framed (a : Activation) (pre : list LogEntry) (n : nat)
    (w1 w2 : World) :
  same_but_log pre n w1 w2 ->
  same_but_log pre n (activate a w1) (activate a w2).
Proof.
  intros H. unfold activate, activate_trace.
  destruct (fr_init3DScene_begin (page a) pre n w1 w2 H) as [Hf Hs].
  destruct (init3DScene_begin (page a) w1) as [r1 u1],
           (init3DScene_begin (page a) w2) as [r2 u2].
  simpl in Hf, Hs. subst r2.
  destruct r1 as [[|]|e]; simpl; try assumption.
  destruct (fr_first_load a pre n u1 u2 Hs) as [Hf1 Hs1].
  destruct (first_load a u1) as [q1 v1], (first_load a u2) as [q2 v2].
  simpl in Hf1, Hs1. subst q2.
  destruct q1 as [[]|e].
  - destruct (fr_second_load a pre n v1 v2 Hs1) as [Hf2 Hs2].
    destruct (second_load a v1) as [p1 x1], (second_load a v2) as [p2 x2].
    simpl in Hf2, Hs2. subst p2. simpl.
    now apply fr_init3DScene_resume.
  - simpl. apply fr_second_load. now apply fr_init3DScene_resume.
Qed.

Lemma idle_same_but_log (w : World) :
  sceneState w = Scene.initial ->
  same_but_log (console_errors w) (render_loops w) w initial_world.
Proof.
  intros H. unfold same_but_log. simpl.
  rewrite app_nil_r, Nat.add_0_r. auto.
Qed.

(** *** Running every activation *)

Ltac split_support :=
  try match goal with
      | |- context [getObjectByName "Support" ?l] =>
        destruct (getObjectByName "Support" l)
      end;
  cbv beta iota.

Ltac run_symbolic := run_begin; repeat (run_call; split_support).

(** Whether a lookup in the whole graph succeeds, in terms of the two
    files. *)
Ltac lookup_value E :=
  apply (f_equal is_some) in E; rewrite ?lookup_app in E;
  simpl in E; rewrite ?orb_false_r in E.

Lemma activation_states (a : Activation) :
  Forall (fun s => daytime_safe s = true
                   /\ (page_ok (page a) = true -> context_created s = true))
         (map sceneState (activate_trace a initial_world)).
Proof.
  destruct a as [[cp wa] bo mo ord d].
  destruct cp, wa, bo as [[[nb pb sb] ab]|eb], mo as [[[nm pm sm] am]|em], ord;
    run_symbolic; cbv -[app getObjectByName];
    repeat apply Forall_cons; try apply Forall_nil;
    (split; [reflexivity | try reflexivity]);
    try (intros H; discriminate H).
Qed.

Lemma activation_states_idle (a : Activation) (w w' : World) :
  sceneState w = Scene.initial -> In w' (activate_trace a w) ->
  daytime_safe (sceneState w') = true
  /\ (page_ok (page a) = true -> context_created (sceneState w') = true).
Proof.
  intros Hw Hin.
  pose proof (activation_states a) as H.
  rewrite <- (activate_trace_scene_indep a w initial_world) in H
    by (now rewrite Hw).
  rewrite Forall_forall in H. apply H. now apply in_map.
Qed.

Lemma activate_in_trace (a : Activation) (w : World) :
  In (activate a w) (activate_trace a w).
Proof.
  unfold activate, activate_trace.
  destruct (init3DScene_begin (page a) w) as [[[|]|e] u]; simpl; auto.
  destruct (first_load a u) as [[[]|e] v]; simpl; auto.
  destruct (second_load a v) as [r x]; simpl; auto.
Qed.

Lemma guard_closed (e az : Q) (w : World) :
  loadingComplete (sceneState w) = false ->
  updateDaytime e az w = (inl tt, w).
Proof.
  intros H. unfold updateDaytime, bind, read, gets. now rewrite H.
Qed.

Lemma daytime_safe_no_throw (e az : Q) (w : World) :
  daytime_safe (sceneState w) = true -> fst (updateDaytime e az w) = inl tt.
Proof.
  unfold daytime_safe. intros H.
  destruct (loadingComplete (sceneState w)) eqn:El.
  - simpl in H. apply andb_true_iff in H. destruct H as [Hs Hk].
    rewrite updateDaytime_ready_eq; [reflexivity|].
    unfold ready. repeat split; [assumption | |].
    + destruct (sun (sceneState w)); [discriminate | discriminate Hs].
    + destruct (sky (sceneState w)); [discriminate | discriminate Hk].
  - now rewrite guard_closed.
Qed.

(** X8. updateDaytime can be called at any moment of the lifecycle: in
    every state an activation from the idle page exposes (whatever the
    page, the load outcomes and their order) it returns without
    dereferencing null, and while loading has not completed, as after
    every teardown, it changes nothing. *)
Theorem daytime_call_is_safe (a : Activation) (w w' : World) (e az : Q) :
  sceneState w = Scene.initial -> In w' (activate_trace a w) ->
  fst (updateDaytime e az w') = inl tt
  /\ (loadingComplete (sceneState w') = false ->
      updateDaytime e az w' = (inl tt, w'))
  /\ (forall w0 : World,
         updateDaytime e az (deactivate w0) = (inl tt, deactivate w0)).
Proof.
  intros Hw Hin.
  destruct (activation_states_idle a w w' Hw Hin) as [Hsafe _].
  split; [now apply daytime_safe_no_throw|].
  split; [apply guard_closed | intros w0; now apply guard_closed].
Qed.

Lemma daytime_call_is_safe_witness :
  fst (updateDaytime 200 0 loaded_world) = inl tt
  /\ (loadingComplete (sceneState loaded_world) = false ->
      updateDaytime 200 0 loaded_world = (inl tt, loaded_world))
  /\ (forall w0 : World,
         updateDaytime 200 0 (deactivate w0) = (inl tt, deactivate w0)).
Proof.
  apply (daytime_call_is_safe both_resolve initial_world loaded_world 200 0).
  - reflexivity.
  - vm_compute. right. right. left. reflexivity.
Defined.

Lemma guard_blocks (a : Activation) (w : World) :
  is_some (scene (sceneState w)) = true -> activate_trace a w = [w].
Proof.
  intros H. unfold activate_trace, init3DScene_begin, bind, read, gets.
  simpl. now rewrite H.
Qed.

(** X9. Once an activation has created the render context, every further
    call of init3DScene is a no-op until a teardown, whether the loads of
    that activation resolved or rejected: it creates no second renderer,
    issues no loads and starts no further render loop. *)
Theorem context_blocks_second_activation (a1 a2 : Activation) (w : World) :
  sceneState w = Scene.initial -> page_ok (page a1) = true ->
  activate_trace a2 (activate a1 w) = [activate a1 w]
  /\ activate a2 (activate a1 w) = activate a1 w.
Proof.
  intros Hw Hp.
  destruct (activation_states_idle a1 w (activate a1 w) Hw
              (activate_in_trace a1 w)) as [_ Hc].
  specialize (Hc Hp). unfold context_created in Hc.
  assert (is_some (scene (sceneState (activate a1 w))) = true) as Hs.
  { destruct (is_some (scene (sceneState (activate a1 w))));
      [reflexivity | discriminate Hc]. }
  pose proof (guard_blocks a2 _ Hs) as Ht.
  split; [exact Ht|]. unfold activate at 1. now rewrite Ht.
Qed.

Lemma context_blocks_second_activation_witness :
  activate_trace both_resolve (activate second_rejects initial_world)
  = [activate second_rejects initial_world]
  /\ activate both_resolve (activate second_rejects initial_world)
     = activate second_rejects initial_world.
Proof.
  apply (context_blocks_second_activation second_rejects both_resolve
           initial_world); reflexivity.
Defined.

(** X10. When the renderer cannot be created (no container element, or
    WebGL refuses), an activation from the idle page leaves SceneState and
    AnimationState untouched, starts no render loop and logs the cause
    followed by "Failed to initialize renderer"; the page is still idle, so
    a later activation proceeds as a first one would. *)
Theorem renderer_failure_leaves_idle (a a' : Activation) (w : World) :
  sceneState w = Scene.initial -> page_ok (page a) = false ->
  sceneState (activate a w) = Scene.initial
  /\ animState (activate a w) = animState w
  /\ render_loops (activate a w) = render_loops w
  /\ console_errors (activate a w)
     = console_errors w ++ renderer_failure_log (page a)
  /\ sceneState (activate a' (activate a w))
     = sceneState (activate a' initial_world).
Proof.
  intros Hw Hp.
  destruct a as [[cp wa] bo mo ord d].
  destruct w as [ss an ce fe rl]. simpl in Hw. subst ss.
  unfold page_ok in Hp. simpl in Hp.
  assert (forall u, sceneState u = Scene.initial ->
                    sceneState (activate a' u)
                    = sceneState (activate a' initial_world)) as Hretry
      by (intros u Hu; apply activate_scene_indep; now rewrite Hu).
  destruct cp, wa; try discriminate Hp;
    unfold activate at 1 2 3 4, activate_trace;
    cbv beta iota delta [page];
    match goal with
    | |- context [init3DScene_begin ?p ?u] => eval_call (init3DScene_begin p u)
    end;
    cbv beta iota delta [last];
    (repeat split;
     [ unfold renderer_failure_log; simpl; now rewrite <- app_assoc
     | apply Hretry; reflexivity ]).
Qed.

Lemma renderer_failure_leaves_idle_witness :
  sceneState (activate (mkActivation (mkPage true false)
                          (Resolved sample_backdrop) (Resolved sample_model)
                          backdrop_first 0) initial_world)
  = Scene.initial
  /\ animState (activate (mkActivation (mkPage true false)
                            (Resolved sample_backdrop) (Resolved sample_model)
                            backdrop_first 0) initial_world)
     = animState initial_world
  /\ render_loops (activate (mkActivation (mkPage true false)
                              (Resolved sample_backdrop)
                              (Resolved sample_model) backdrop_first 0)
                            initial_world)
     = render_loops initial_world
  /\ console_errors (activate (mkActivation (mkPage true false)
                                 (Resolved sample_backdrop)
                                 (Resolved sample_model) backdrop_first 0)
                               initial_world)
     = console_errors initial_world
       ++ renderer_failure_log (mkPage true false)
  /\ sceneState (activate both_resolve
                   (activate (mkActivation (mkPage true false)
                                (Resolved sample_backdrop)
                                (Resolved sample_model) backdrop_first 0)
                             initial_world))
     = sceneState (activate both_resolve initial_world).
Proof.
  apply (renderer_failure_leaves_idle
           (mkActivation (mkPage true false) (Resolved sample_backdrop)
                         (Resolved sample_model) backdrop_first 0)
           both_resolve initial_world); reflexivity.
Defined.

Lemma missing_nodes_fresh (gb gm : Gltf) (ord : Order) (d : Q) :
  let w := activate (mkActivation (mkPage true true) (Resolved gb)
                                  (Resolved gm) ord d) initial_world in
  core_populated (sceneState w) = true
  /\ loadingComplete (sceneState w) = true
  /\ isLoading (sceneState w) = false
  /\ console_errors w = []
  /\ render_loops w = 1%nat
  /\ is_some (pointLight (sceneState w))
     = has_node "Point" gb || has_node "Point" gm
  /\ is_some (spotLight (sceneState w))
     = has_node "Spot" gb || has_node "Spot" gm.
Proof.
  destruct gb as [[nb pb sb] ab], gm as [[nm pm sm] am].
  unfold has_node. simpl gltf_scene. simpl nodes. cbv zeta.
  remember (is_some (getObjectByName "Point" nb)
            || is_some (getObjectByName "Point" nm)) as bp eqn:Hp.
  remember (is_some (getObjectByName "Spot" nb)
            || is_some (getObjectByName "Spot" nm)) as bs eqn:Hs.
  destruct ord; run_symbolic; cbv -[app getObjectByName];
    repeat match goal with
           | |- context [getObjectByName ?n ?l] =>
             let E := fresh "E" in
             destruct (getObjectByName n l) eqn:E; lookup_value E
           end;
    repeat split; subst bp bs;
    first [ congruence | rewrite orb_comm; congruence ].
Qed.

(** X11. Named nodes are optional: when both loads resolve, whatever the
    two files contain, the activation completes (loadingComplete set,
    isLoading cleared), logs nothing, starts one render loop and populates
    every field that does not depend on a named node; the point and spot
    light references are set exactly when one of the files has a node of
    that name, and stay null otherwise. *)
Theorem missing_nodes_tolerated (gb gm : Gltf) (ord : Order) (d : Q)
    (w : World) :
  sceneState w = Scene.initial ->
  let w' := activate (mkActivation (mkPage true true) (Resolved gb)
                                   (Resolved gm) ord d) w in
  core_populated (sceneState w') = true
  /\ loadingComplete (sceneState w') = true
  /\ isLoading (sceneState w') = false
  /\ console_errors w' = console_errors w
  /\ render_loops w' = S (render_loops w)
  /\ is_some (pointLight (sceneState w'))
     = has_node "Point" gb || has_node "Point" gm
  /\ is_some (spotLight (sceneState w'))
     = has_node "Spot" gb || has_node "Spot" gm.
Proof.
  intros Hw. cbv zeta.
  destruct (activate_framed
              (mkActivation (mkPage true true) (Resolved gb) (Resolved gm)
                            ord d)
              _ _ w initial_world (idle_same_but_log w Hw))
    as (Hs & Hc & Hl).
  destruct (missing_nodes_fresh gb gm ord d)
    as (F1 & F2 & F3 & F4 & F5 & F6 & F7).
  rewrite Hs, Hc, Hl, F4, F5, app_nil_r, Nat.add_1_r.
  repeat split; assumption.
Qed.

Lemma missing_nodes_tolerated_witness :
  let w' := activate (mkActivation (mkPage true true)
                        (Resolved sample_model) (Resolved sample_model)
                        model_first 0) initial_world in
  core_populated (sceneState w') = true
  /\ loadingComplete (sceneState w') = true
  /\ isLoading (sceneState w') = false
  /\ console_errors w' = console_errors initial_world
  /\ render_loops w' = S (render_loops initial_world)
  /\ is_some (pointLight (sceneState w'))
     = has_node "Point" sample_model || has_node "Point" sample_model
  /\ is_some (spotLight (sceneState w'))
     = has_node "Spot" sample_model || has_node "Spot" sample_model.
Proof.
  apply (missing_nodes_tolerated sample_model sample_model model_first 0
           initial_world).
  reflexivity.
Defined.

Lemma first_rejection_fresh (a : Activation) (e1 : JsError) :
  page_ok (page a) = true -> first_outcome a = Rejected e1 ->
  let w := activate a initial_world in
  console_errors w = [log_error "Error during scene initialization:" e1]
  /\ render_loops w = 1%nat
  /\ loadingComplete (sceneState w) = false
  /\ isLoading (sceneState w) = false
  /\ context_created (sceneState w) = true
  /\ (forall g, order a = model_first -> backdrop a = Resolved g ->
                is_some (blenderScene (sceneState w)) = true)
  /\ (forall g, order a = backdrop_first -> model a = Resolved g ->
                scene (sceneState w) = Some (nodes (gltf_scene g))).
Proof.
  destruct a as [[cp wa] bo mo ord d].
  unfold page_ok, first_outcome. simpl. intros Hp Hf.
  destruct cp, wa; try discriminate Hp.
  destruct ord; subst;
    [destruct mo as [[[nm pm sm] am]|e2] | destruct bo as [[[nb pb sb] ab]|e2]];
    run_symbolic; cbv -[app getObjectByName];
    repeat split; intros g Ho Hg; try discriminate Ho; try discriminate Hg;
    injection Hg as <-; reflexivity.
Qed.

(** X12. Fail-fast on the first rejection: when the load that settles
    first rejects, exactly one error is logged, the one of that load,
    whatever the other load does later; loadingComplete stays false,
    isLoading is cleared, the render context stays and the render loop is
    started. The other load is not cancelled: when it resolves afterwards
    its callback still writes into SceneState. *)
Theorem first_rejection_logged_once (a : Activation) (e1 : JsError)
    (w : World) :
  sceneState w = Scene.initial ->
  page_ok (page a) = true -> first_outcome a = Rejected e1 ->
  let w' := activate a w in
  console_errors w'
  = console_errors w ++ [log_error "Error during scene initialization:" e1]
  /\ render_loops w' = S (render_loops w)
  /\ loadingComplete (sceneState w') = false
  /\ isLoading (sceneState w') = false
  /\ context_created (sceneState w') = true
  /\ (forall g, order a = model_first -> backdrop a = Resolved g ->
                is_some (blenderScene (sceneState w')) = true)
  /\ (forall g, order a = backdrop_first -> model a = Resolved g ->
                scene (sceneState w') = Some (nodes (gltf_scene g))).
Proof.
  intros Hw Hp Hf. cbv zeta.
  destruct (activate_framed a _ _ w initial_world (idle_same_but_log w Hw))
    as (Hs & Hc & Hl).
  destruct (first_rejection_fresh a e1 Hp Hf)
    as (F1 & F2 & F3 & F4 & F5 & F6 & F7).
  rewrite Hs, Hc, Hl, F1, F2, Nat.add_1_r.
  repeat split; assumption.
Qed.

Lemma first_rejection_logged_once_witness :
  let a := mkActivation sample_page (Resolved sample_backdrop)
                        (Rejected (LoadError "model")) model_first 0 in
  let w' := activate a loaded_world_torn_down in
  console_errors w'
  = console_errors loaded_world_torn_down
    ++ [log_error "Error during scene initialization:" (LoadError "model")]
  /\ render_loops w' = S (render_loops loaded_world_torn_down)
  /\ loadingComplete (sceneState w') = false
  /\ isLoading (sceneState w') = false
  /\ context_created (sceneState w') = true
  /\ (forall g, order a = model_first -> backdrop a = Resolved g ->
                is_some (blenderScene (sceneState w')) = true)
  /\ (forall g, order a = backdrop_first -> model a = Resolved g ->
                scene (sceneState w') = Some (nodes (gltf_scene g))).
Proof.
  apply (first_rejection_logged_once
           (mkActivation sample_page (Resolved sample_backdrop)
                         (Rejected (LoadError "model")) model_first 0)
           (LoadError "model") loaded_world_torn_down); reflexivity.
Defined.

(** X13. Teardown is what stops the render loop: on a torn-down page a
    frame of a loop left over from the activation returns at its renderer
    check, requests no further frame, and advances neither the controller
    nor its reports, even when AnimationState still says it is playing. *)
Theorem teardown_stops_frames (w : World) (d : Q) :
  animate d (deactivate w) = (inl false, deactivate w)
  /\ initializeAnimation d (deactivate w) = (inl tt, deactivate w)
  /\ animState (deactivate w) = animState w.
Proof. repeat split. Qed.

End LifecycleExtra.

(** * Properties of the shade material presets *)

Module MaterialFacts.
Import Material.

Lemma Node_induction (P : Node -> Prop) :
  (forall n k cs, Forall P cs -> P (mkNode n k cs)) -> forall t, P t.
Proof.
  intros H. fix IH 1. intros [n k cs]. apply H.
  induction cs as [|c cs IHcs]; constructor; [apply IH | exact IHcs].
Qed.

Lemma name_of_swap (m : Material) (t : Node) : name_of (swap m t) = name_of t.
Proof. destruct t; reflexivity. Qed.

Lemma names_swap (m : Material) (t : Node) : names (swap m t) = names t.
Proof.
  induction t as [n k cs IH] using Node_induction. simpl. f_equal.
  induction IH as [|c cs Hc _ IHl]; simpl; [reflexivity|].
  now rewrite Hc, IHl.
Qed.

Lemma find_node_swap (n : string) (m : Material) (t : Node) :
  find_node n (swap m t) = option_map (swap m) (find_node n t).
Proof.
  induction t as [nm k cs IH] using Node_induction. simpl.
  destruct (String.eqb nm n); [reflexivity|].
  induction IH as [|c cs Hc _ IHl]; simpl; [reflexivity|].
  rewrite Hc. destruct (find_node n c); simpl; [reflexivity | exact IHl].
Qed.

(** Writing through the object found by name keeps every name in place
    and is seen at the same place by the next lookup. *)
Lemma update_first_swap (n : string) (m : Material) (t : Node) :
  names (update_first n (swap m) t) = names t
  /\ find_node n (update_first n (swap m) t)
     = option_map (swap m) (find_node n t).
Proof.
  induction t as [nm k cs IH] using Node_induction.
  simpl update_first. simpl find_node at 2.
  destruct (String.eqb nm n) eqn:E.
  - split; [apply (names_swap m (mkNode nm k cs))|].
    simpl. now rewrite E.
  - simpl. rewrite E. split.
    + f_equal. induction IH as [|c cs [Hn Hf] _ IHl]; simpl; [reflexivity|].
      destruct (find_node n c); simpl; [now rewrite Hn | now rewrite IHl].
    + induction IH as [|c cs [Hn Hf] _ IHl]; simpl; [reflexivity|].
      destruct (find_node n c) eqn:Ec; simpl.
      * rewrite Hf. reflexivity.
      * rewrite Ec. exact IHl.
Qed.

Lemma swap_kind_twice (p q : Material) (k : Kind) :
  m_name p = "AbajurOutside"%string ->
  swap_kind q (swap_kind p k) = swap_kind q k.
Proof.
  intros Hp. destruct k as [|m|ms]; simpl; try reflexivity.
  destruct (String.eqb (m_name m) "AbajurOutside") eqn:E; simpl.
  - now rewrite Hp.
  - now rewrite E.
Qed.

Lemma swap_twice (p q : Material) (t : Node) :
  m_name p = "AbajurOutside"%string -> swap q (swap p t) = swap q t.
Proof.
  intros Hp. induction t as [n k cs IH] using Node_induction. simpl.
  rewrite swap_kind_twice by assumption. f_equal.
  rewrite map_map. apply map_ext_Forall. exact IH.
Qed.

Lemma update_first_twice (n : string) (p q : Material) (t : Node) :
  m_name p = "AbajurOutside"%string ->
  update_first n (swap q) (update_first n (swap p) t)
  = update_first n (swap q) t.
Proof.
  intros Hp. induction t as [nm k cs IH] using Node_induction.
  simpl update_first at 2 3. destruct (String.eqb nm n) eqn:E.
  - simpl. rewrite E. simpl. rewrite swap_kind_twice by assumption. f_equal.
    rewrite map_map. apply map_ext. intros c. now apply swap_twice.
  - simpl. rewrite E. f_equal.
    induction IH as [|c cs Hc _ IHl]; simpl; [reflexivity|].
    destruct (find_node n c) eqn:Ec; simpl.
    + destruct (update_first_swap n p c) as [_ Hf]. rewrite Hf, Ec. simpl.
      now rewrite Hc.
    + rewrite Ec. now rewrite IHl.
Qed.

Lemma offered_preset (materialType : string) :
  offered materialType ->
  exists m, preset_material materialType = Some m
            /\ m_name m = "AbajurOutside"%string.
Proof.
  intros [-> | [-> | ->]]; eexists; split; reflexivity.
Qed.

(** X14. The presets can be applied over and over: each of the three
    carries the material name the traversal looks for, so applying one
    preset after another leaves scene and console exactly as applying the
    later one alone (and applying a preset twice as applying it once). *)
Theorem last_preset_wins (t1 t2 : string) (v : View) (r : Node) :
  root v = Some r -> find_node "Abajur" r <> None ->
  offered t1 -> offered t2 ->
  updateAbajurMaterial t2 (snd (updateAbajurMaterial t1 v))
  = updateAbajurMaterial t2 v.
Proof.
  intros Hr Ha H1 H2.
  destruct (offered_preset t1 H1) as (m1 & E1 & N1).
  destruct (offered_preset t2 H2) as (m2 & E2 & N2).
  unfold updateAbajurMaterial. rewrite Hr.
  destruct (find_node "Abajur" r) as [a|] eqn:Ea; [|congruence].
  rewrite E1. simpl.
  destruct (update_first_swap "Abajur" m1 r) as [_ Hf]. rewrite Hf, Ea. simpl.
  rewrite E2. now rewrite update_first_twice.
Qed.

Lemma last_preset_wins_witness :
  updateAbajurMaterial "inox" (snd (updateAbajurMaterial "wood" sample_view))
  = updateAbajurMaterial "inox" sample_view.
Proof.
  apply (last_preset_wins "wood" "inox" sample_view sample_lamp).
  - reflexivity.
  - vm_compute. discriminate.
  - right. left. reflexivity.
  - right. right. reflexivity.
Defined.

Lemma kind_materials_swap (m x : Material) (k : Kind) :
  In x (kind_materials (swap_kind m k)) ->
  x = m \/ (In x (kind_materials k) /\ m_name x <> "AbajurOutside"%string).
Proof.
  destruct k as [|m0|ms]; simpl; try tauto.
  destruct (String.eqb (m_name m0) "AbajurOutside") eqn:E; simpl.
  - intros [<- | []]. now left.
  - intros [<- | []]. right. split; [now left|].
    now apply String.eqb_neq.
Qed.

Lemma materials_swap (m x : Material) (t : Node) :
  In x (materials (swap m t)) ->
  x = m \/ (In x (materials t) /\ m_name x <> "AbajurOutside"%string).
Proof.
  induction t as [n k cs IH] using Node_induction. simpl.
  intros H. apply in_app_or in H. destruct H as [H | H].
  - destruct (kind_materials_swap m x k H) as [-> | [Hin Hn]]; [now left|].
    right. split; [apply in_or_app; now left | assumption].
  - apply in_flat_map in H. destruct H as (c' & Hc' & Hx).
    apply in_map_iff in Hc'. destruct Hc' as (c & <- & Hc).
    rewrite Forall_forall in IH.
    destruct (IH c Hc Hx) as [-> | [Hin Hn]]; [now left|].
    right. split; [|assumption].
    apply in_or_app. right. apply in_flat_map. now exists c.
Qed.

(** Outside the object found by name nothing is written. *)
Lemma update_first_outside (n : string) (m : Material) (hole : Node)
    (t : Node) :
  update_first n (fun _ => hole) (update_first n (swap m) t)
  = update_first n (fun _ => hole) t.
Proof.
  induction t as [nm k cs IH] using Node_induction.
  simpl update_first at 2 3. destruct (String.eqb nm n) eqn:E.
  - simpl. now rewrite E.
  - simpl. rewrite E. f_equal.
    induction IH as [|c cs Hc _ IHl]; simpl; [reflexivity|].
    destruct (find_node n c) eqn:Ec; simpl.
    + destruct (update_first_swap n m c) as [_ Hf]. rewrite Hf, Ec. simpl.
      now rewrite Hc.
    + rewrite Ec. now rewrite IHl.
Qed.

(** X15. A preset reaches the shade and nothing else: it keeps every
    node and name of the scene in place, logs nothing, writes only below
    the object named "Abajur" (with that object cut out, the scene is the
    one before), and there it replaces exactly the single materials named
    "AbajurOutside": afterwards each single material of the shade is the
    preset's or an old one with another name. *)
Theorem preset_reaches_only_the_shade (materialType : string) (v : View)
    (r a hole : Node) :
  root v = Some r -> find_node "Abajur" r = Some a -> offered materialType ->
  exists (m : Material) (r' : Node),
    preset_material materialType = Some m
    /\ updateAbajurMaterial materialType v
       = (inl tt, mkView (Some r') (warnings v))
    /\ names r' = names r
    /\ find_node "Abajur" r' = Some (swap m a)
    /\ (forall x, In x (materials (swap m a)) ->
                  x = m \/ (In x (materials a)
                            /\ m_name x <> "AbajurOutside"%string))
    /\ update_first "Abajur" (fun _ => hole) r'
       = update_first "Abajur" (fun _ => hole) r.
Proof.
  intros Hr Ha Ho.
  destruct (offered_preset materialType Ho) as (m & Em & Nm).
  exists m, (update_first "Abajur" (swap m) r).
  destruct (update_first_swap "Abajur" m r) as [Hn Hf].
  split; [exact Em|]. split.
  { unfold updateAbajurMaterial. now rewrite Hr, Ha, Em. }
  split; [exact Hn|]. split; [now rewrite Hf, Ha|]. split.
  - intros x. apply materials_swap.
  - apply update_first_outside.
Qed.

Lemma preset_reaches_only_the_shade_witness :
  exists (m : Material) (r' : Node),
    preset_material "wood" = Some m
    /\ updateAbajurMaterial "wood" sample_view
       = (inl tt, mkView (Some r') (warnings sample_view))
    /\ names r' = names sample_lamp
    /\ find_node "Abajur" r'
       = Some (swap m (mkNode "Abajur" group
                         [mkNode "Shade_1" (mesh outside_material) [];
                          mkNode "Shade_2" (mesh inside_material) []]))
    /\ (forall x,
           In x (materials
                   (swap m (mkNode "Abajur" group
                              [mkNode "Shade_1" (mesh outside_material) [];
                               mkNode "Shade_2" (mesh inside_material) []]))) ->
           x = m
           \/ (In x (materials
                       (mkNode "Abajur" group
                          [mkNode "Shade_1" (mesh outside_material) [];
                           mkNode "Shade_2" (mesh inside_material) []]))
               /\ m_name x <> "AbajurOutside"%string))
    /\ update_first "Abajur" (fun _ => mkNode "cut" group []) r'
       = update_first "Abajur" (fun _ => mkNode "cut" group []) sample_lamp.
Proof.
  apply (preset_reaches_only_the_shade "wood" sample_view sample_lamp
           (mkNode "Abajur" group
              [mkNode "Shade_1" (mesh outside_material) [];
               mkNode "Shade_2" (mesh inside_material) []])
           (mkNode "cut" group [])).
  - reflexivity.
  - reflexivity.
  - right. left. reflexivity.
Defined.

Lemma preset_material_unknown (materialType : string) :
  ~ offered materialType -> ~ In materialType inherited_names ->
  preset_material materialType = None.
Proof.
  intros Ho Hi. unfold preset_material, offered in *.
  destruct (String.eqb materialType "black") eqn:E1;
    [apply String.eqb_eq in E1; tauto|].
  destruct (String.eqb materialType "wood") eqn:E2;
    [apply String.eqb_eq in E2; tauto|].
  destruct (String.eqb materialType "inox") eqn:E3;
    [apply String.eqb_eq in E3; tauto|].
  destruct (existsb (String.eqb materialType) inherited_names) eqn:E4;
    [|reflexivity].
  apply existsb_exists in E4. destruct E4 as (x & Hx & Ex).
  apply String.eqb_eq in Ex. subst x. contradiction.
Qed.

(** X16. A name that is no preset changes nothing: for a material type
    that is neither one of the three presets nor a property every object
    inherits, the call returns normally, leaves the scene as it is and
    logs one warning (that the shade is missing, if it is, else that the
    preset is). The shade is looked up first: without an object named
    "Abajur" even a valid preset only logs. *)
Theorem unknown_preset_changes_nothing (materialType : string) (v : View)
    (r : Node) :
  root v = Some r ->
  (~ offered materialType /\ ~ In materialType inherited_names)
  \/ find_node "Abajur" r = None ->
  updateAbajurMaterial materialType v
  = (inl tt,
     mkView (root v)
            (warnings v
             ++ [match find_node "Abajur" r with
                 | Some _ => preset_not_found materialType
                 | None => abajur_not_found
                 end])).
Proof.
  intros Hr H. unfold updateAbajurMaterial. rewrite Hr.
  destruct (find_node "Abajur" r) as [a|] eqn:Ea; [|reflexivity].
  destruct H as [[Ho Hi] | H]; [|discriminate H].
  now rewrite (preset_material_unknown materialType Ho Hi).
Qed.

Lemma unknown_preset_changes_nothing_witness :
  updateAbajurMaterial "gold" sample_view
  = (inl tt,
     mkView (root sample_view)
            (warnings sample_view
             ++ [match find_node "Abajur" sample_lamp with
                 | Some _ => preset_not_found "gold"
                 | None => abajur_not_found
                 end])).
Proof.
  apply (unknown_preset_changes_nothing "gold" sample_view sample_lamp).
  - reflexivity.
  - left. split.
    + intros [H | [H | H]]; discriminate H.
    + simpl. intros H.
      repeat (destruct H as [H | H]; [discriminate H|]). exact H.
Defined.

Lemma swap_kind_noop (q : Material) (k : Kind) :
  (forall x, In x (kind_materials k) -> m_name x <> "AbajurOutside"%string) ->
  swap_kind q k = k.
Proof.
  destruct k as [|m|ms]; simpl; try reflexivity. intros H.
  destruct (String.eqb (m_name m) "AbajurOutside") eqn:E; [|reflexivity].
  apply String.eqb_eq in E. exfalso. apply (H m); [now left | assumption].
Qed.

Lemma swap_noop (q : Material) (t : Node) :
  (forall x, In x (materials t) -> m_name x <> "AbajurOutside"%string) ->
  swap q t = t.
Proof.
  induction t as [n k cs IH] using Node_induction. simpl. intros H.
  rewrite swap_kind_noop
    by (intros x Hx; apply H; apply in_or_app; now left).
  f_equal.
  assert (forall c, In c cs ->
            forall x, In x (materials c) ->
                      m_name x <> "AbajurOutside"%string) as Hc.
  { intros c Hin x Hx. apply H. apply in_or_app. right.
    apply in_flat_map. now exists c. }
  clear H. induction IH as [|c cs Hs _ IHl]; simpl; [reflexivity|].
  rewrite Hs by (apply Hc; now left).
  rewrite IHl by (intros c' Hin; apply Hc; now right). reflexivity.
Qed.

Lemma update_first_noop (n : string) (f : Node -> Node) (t : Node) :
  (forall a, find_node n t = Some a -> f a = a) -> update_first n f t = t.
Proof.
  induction t as [nm k cs IH] using Node_induction. simpl.
  destruct (String.eqb nm n) eqn:E.
  - intros H. now apply H.
  - intros H. f_equal.
    induction IH as [|c cs Hc _ IHl]; simpl; [reflexivity|].
    simpl in H. destruct (find_node n c) eqn:Ec.
    + now rewrite Hc.
    + now rewrite IHl.
Qed.

Lemma inherited_preset (materialType : string) :
  In materialType inherited_names ->
  preset_material materialType = Some default_material.
Proof.
  simpl. intros H.
  repeat (destruct H as [<- | H]; [reflexivity|]). contradiction.
Qed.

(** X17. A property name every object inherits ("constructor",
    "toString", ...) passes the preset check: the shade then gets a
    default material without a name, and from then on no preset applies
    any more, since the traversal finds no material named "AbajurOutside"
    under the shade; each later call with one of the three presets leaves
    scene and console as they are. *)
Theorem inherited_name_disables_presets (inherited materialType : string)
    (v : View) (r : Node) :
  root v = Some r -> find_node "Abajur" r <> None ->
  In inherited inherited_names -> offered materialType ->
  let v1 := snd (updateAbajurMaterial inherited v) in
  updateAbajurMaterial materialType v1 = (inl tt, v1).
Proof.
  intros Hr Ha Hi Ho. cbv zeta.
  destruct (offered_preset materialType Ho) as (m & Em & _).
  destruct (find_node "Abajur" r) as [a|] eqn:Ea; [|congruence].
  assert (updateAbajurMaterial inherited v
          = (inl tt,
             mkView (Some (update_first "Abajur" (swap default_material) r))
                    (warnings v))) as E1.
  { unfold updateAbajurMaterial.
    now rewrite Hr, Ea, (inherited_preset inherited Hi). }
  rewrite E1. simpl snd.
  destruct (update_first_swap "Abajur" default_material r) as [_ Hf].
  unfold updateAbajurMaterial. cbn [root warnings].
  rewrite Hf, Ea. cbn [option_map]. rewrite Em.
  rewrite update_first_noop; [reflexivity|].
  intros a' Ha'. rewrite Hf, Ea in Ha'. simpl in Ha'. injection Ha' as <-.
  apply swap_noop. intros x Hx.
  destruct (materials_swap default_material x a Hx) as [-> | [_ Hn]];
    [discriminate | exact Hn].
Qed.

Lemma inherited_name_disables_presets_witness :
  let v1 := snd (updateAbajurMaterial "constructor" sample_view) in
  updateAbajurMaterial "black" v1 = (inl tt, v1).
Proof.
  apply (inherited_name_disables_presets "constructor" "black" sample_view
           sample_lamp).
  - reflexivity.
  - vm_compute. discriminate.
  - left. reflexivity.
  - left. reflexivity.
Defined.

End MaterialFacts.

(** * Properties of the view toggle *)

Module ToggleFacts.
Import Lifecycle Toggle.

Lemma has_class_In (cl : list string) (c : string) :
  has_class cl c = true <-> In c cl.
Proof.
  unfold has_class. rewrite existsb_exists. split.
  - intros (x & Hx & E). apply String.eqb_eq in E. now subst.
  - intros H. exists c. split; [assumption | apply String.eqb_refl].
Qed.

Lemma In_classList_add (tokens cl : list string) (c : string) :
  In c (classList_add tokens cl) <-> In c cl \/ In c tokens.
Proof.
  unfold classList_add. revert cl.
  induction tokens as [|t ts IH]; intros cl; simpl; [tauto|].
  rewrite IH. destruct (has_class cl t) eqn:E.
  - apply has_class_In in E. split; [tauto|].
    intros [H | [<- | H]]; tauto.
  - rewrite in_app_iff. simpl. tauto.
Qed.

Lemma In_classList_remove (tokens cl : list string) (c : string) :
  In c (classList_remove tokens cl) <-> In c cl /\ ~ In c tokens.
Proof.
  unfold classList_remove. rewrite filter_In.
  rewrite negb_true_iff, <- not_true_iff_false, has_class_In. tauto.
Qed.

Lemma classes_disjoint (c : string) :
  In c ACTIVE_CLASSES -> In c INACTIVE_CLASSES -> False.
Proof.
  simpl. intros [<- | [<- | [<- | []]]] [H | [H | []]]; discriminate H.
Qed.

(** The two class-list rewrites of [updateButtons]. *)
Lemma made_active (cl : list string) :
  marked_active (classList_remove INACTIVE_CLASSES
                   (classList_add ACTIVE_CLASSES cl))
  /\ same_other_classes cl (classList_remove INACTIVE_CLASSES
                              (classList_add ACTIVE_CLASSES cl)).
Proof.
  unfold marked_active, same_other_classes. repeat split.
  - intros c Hc. rewrite In_classList_remove, In_classList_add.
    split; [now right | intros Hi; exact (classes_disjoint c Hc Hi)].
  - intros c Hc. rewrite In_classList_remove. tauto.
  - rewrite In_classList_remove, In_classList_add. tauto.
  - intros Hin. rewrite In_classList_remove, In_classList_add. tauto.
Qed.

Lemma made_inactive (cl : list string) :
  marked_inactive (classList_add INACTIVE_CLASSES
                     (classList_remove ACTIVE_CLASSES cl))
  /\ same_other_classes cl (classList_add INACTIVE_CLASSES
                              (classList_remove ACTIVE_CLASSES cl)).
Proof.
  unfold marked_inactive, same_other_classes. repeat split.
  - intros c Hc. rewrite In_classList_add. now right.
  - intros c Hc. rewrite In_classList_add, In_classList_remove.
    intros [[_ H] | H]; [tauto | exact (classes_disjoint c Hc H)].
  - rewrite In_classList_add, In_classList_remove. tauto.
  - intros Hin. rewrite In_classList_add, In_classList_remove. tauto.
Qed.

Lemma updateButtons_spec (viewType : string) (d : Dom) (ci c3 : list string) :
  imageViewBtn d = Some ci -> threeDViewBtn d = Some c3 ->
  exists ci' c3',
    updateButtons viewType d
    = (inl tt, mkDom (carouselImage d) (threeJSContainer d)
                     (Some ci') (Some c3'))
    /\ same_other_classes ci ci' /\ same_other_classes c3 c3'
    /\ (if String.eqb viewType "3DView"
        then marked_active c3' /\ marked_inactive ci'
        else marked_active ci' /\ marked_inactive c3').
Proof.
  intros Hi H3. unfold updateButtons.
  destruct (String.eqb viewType "3DView"); rewrite ?Hi, ?H3; simpl;
    rewrite ?Hi, ?H3; do 2 eexists; (split; [reflexivity|]).
  - destruct (made_active c3) as [A1 A2], (made_inactive ci) as [B1 B2].
    split; [exact B2|]. split; [exact A2|]. split; assumption.
  - destruct (made_active ci) as [A1 A2], (made_inactive c3) as [B1 B2].
    split; [exact A2|]. split; [exact B2|]. split; assumption.
Qed.

(** X18. updateButtons marks exactly one button: with both buttons on the
    page, after updateButtons('3DView') the 3D button carries all active
    classes and no inactive one and the image button the reverse; for
    every other argument it is the image button that is marked active.
    Classes other than the five it toggles stay as they are on both
    buttons. *)
Theorem buttons_follow_the_mode (viewType : string) (d : Dom)
    (ci c3 : list string) :
  imageViewBtn d = Some ci -> threeDViewBtn d = Some c3 ->
  exists ci' c3',
    updateButtons viewType d
    = (inl tt, mkDom (carouselImage d) (threeJSContainer d)
                     (Some ci') (Some c3'))
    /\ same_other_classes ci ci' /\ same_other_classes c3 c3'
    /\ (if String.eqb viewType "3DView"
        then marked_active c3' /\ marked_inactive ci'
        else marked_active ci' /\ marked_inactive c3').
Proof. apply updateButtons_spec. Qed.

Lemma buttons_follow_the_mode_witness :
  exists ci' c3',
    updateButtons "3DView" sample_dom
    = (inl tt, mkDom (carouselImage sample_dom) (threeJSContainer sample_dom)
                     (Some ci') (Some c3'))
    /\ same_other_classes
         ["px-4"; "bg-gray-200"; "shadow-inner"; "cursor-default"]%string ci'
    /\ same_other_classes ["px-4"; "bg-white"; "hover:text-rose-500"]%string
                          c3'
    /\ (if String.eqb "3DView" "3DView"
        then marked_active c3' /\ marked_inactive ci'
        else marked_active ci' /\ marked_inactive c3').
Proof.
  apply (buttons_follow_the_mode "3DView" sample_dom
           ["px-4"; "bg-gray-200"; "shadow-inner"; "cursor-default"]%string
           ["px-4"; "bg-white"; "hover:text-rose-500"]%string); reflexivity.
Defined.

Lemma toggleView_3D (a : Activation) (b : Browser) (di dc : string) :
  carouselImage (dom b) = Some di -> threeJSContainer (dom b) = Some dc ->
  toggleView "3DView" a b
  = (inl tt,
     mkBrowser (activate (on_this_page a) (world b))
               (set_container_display "block"
                  (set_image_display "none" (dom b)))).
Proof.
  intros Hi Hc. unfold toggleView. simpl String.eqb. cbv iota.
  rewrite Hi. cbn [threeJSContainer set_image_display]. now rewrite Hc.
Qed.

Lemma toggleView_image (a : Activation) (b : Browser) (di dc : string) :
  carouselImage (dom b) = Some di -> threeJSContainer (dom b) = Some dc ->
  toggleView "imageView" a b
  = (inl tt,
     mkBrowser (cleanup3D (world b))
               (set_container_display "none"
                  (set_image_display "block" (dom b)))).
Proof.
  intros Hi Hc. unfold toggleView. simpl String.eqb. cbv iota.
  rewrite Hi. cbn [threeJSContainer set_image_display]. now rewrite Hc.
Qed.

(** X19. With the four elements on the page, toggleViewType('3DView')
    hides the image, shows the container, runs the activation and marks the
    3D button; toggleViewType('imageView') tears the scene down (SceneState
    back to its initial value), shows the image, hides the container and
    marks the image button. Neither throws. *)
Theorem toggle_shows_the_selected_view (a : Activation) (b : Browser)
    (di dc : string) (ci c3 : list string) :
  carouselImage (dom b) = Some di -> threeJSContainer (dom b) = Some dc ->
  imageViewBtn (dom b) = Some ci -> threeDViewBtn (dom b) = Some c3 ->
  (exists ci' c3',
      toggleViewType "3DView" a b
      = (inl tt,
         mkBrowser (activate (on_this_page a) (world b))
                   (mkDom (Some "none"%string) (Some "block"%string)
                          (Some ci') (Some c3')))
      /\ marked_active c3' /\ marked_inactive ci')
  /\ (exists ci' c3',
         toggleViewType "imageView" a b
         = (inl tt,
            mkBrowser (cleanup3D (world b))
                      (mkDom (Some "block"%string) (Some "none"%string)
                             (Some ci') (Some c3')))
         /\ marked_active ci' /\ marked_inactive c3'
         /\ sceneState (cleanup3D (world b)) = Scene.initial).
Proof.
  intros Hi Hc Hbi Hb3. split.
  - unfold toggleViewType. rewrite (toggleView_3D a b di dc Hi Hc).
    cbn [dom world].
    destruct (updateButtons_spec "3DView"
                (set_container_display "block"
                   (set_image_display "none" (dom b))) ci c3 Hbi Hb3)
      as (ci' & c3' & E & _ & _ & Hm).
    rewrite E. exists ci', c3'. simpl in Hm. split; [reflexivity | exact Hm].
  - unfold toggleViewType. rewrite (toggleView_image a b di dc Hi Hc).
    cbn [dom world].
    destruct (updateButtons_spec "imageView"
                (set_container_display "none"
                   (set_image_display "block" (dom b))) ci c3 Hbi Hb3)
      as (ci' & c3' & E & _ & _ & Hm).
    rewrite E. exists ci', c3'. simpl in Hm.
    split; [reflexivity|]. destruct Hm.
    split; [assumption|]. split; [assumption | reflexivity].
Qed.

Lemma toggle_shows_the_selected_view_witness :
  (exists ci' c3',
      toggleViewType "3DView" SceneSpec.both_resolve sample_browser
      = (inl tt,
         mkBrowser (activate (on_this_page SceneSpec.both_resolve)
                             (world sample_browser))
                   (mkDom (Some "none"%string) (Some "block"%string)
                          (Some ci') (Some c3')))
      /\ marked_active c3' /\ marked_inactive ci')
  /\ (exists ci' c3',
         toggleViewType "imageView" SceneSpec.both_resolve sample_browser
         = (inl tt,
            mkBrowser (cleanup3D (world sample_browser))
                      (mkDom (Some "block"%string) (Some "none"%string)
                             (Some ci') (Some c3')))
         /\ marked_active ci' /\ marked_inactive c3'
         /\ sceneState (cleanup3D (world sample_browser)) = Scene.initial).
Proof.
  apply (toggle_shows_the_selected_view SceneSpec.both_resolve sample_browser
           "block" "none"
           ["px-4"; "bg-gray-200"; "shadow-inner"; "cursor-default"]%string
           ["px-4"; "bg-white"; "hover:text-rose-500"]%string); reflexivity.
Defined.

(** X20. A view type that is neither '3DView' nor 'imageView' is not
    rejected: toggleView does nothing for it (scene, image and container
    stay as they are), but updateButtons takes its else branch, so the
    image button ends up marked active whatever view is showing. *)
Theorem unknown_view_type_marks_image_button (selected : string)
    (a : Activation) (b : Browser) (ci c3 : list string) :
  selected <> "3DView"%string -> selected <> "imageView"%string ->
  imageViewBtn (dom b) = Some ci -> threeDViewBtn (dom b) = Some c3 ->
  exists ci' c3',
    toggleViewType selected a b
    = (inl tt,
       mkBrowser (world b)
                 (mkDom (carouselImage (dom b)) (threeJSContainer (dom b))
                        (Some ci') (Some c3')))
    /\ marked_active ci' /\ marked_inactive c3'.
Proof.
  intros H3 Hi Hbi Hb3.
  apply String.eqb_neq in H3. apply String.eqb_neq in Hi.
  unfold toggleViewType, toggleView. rewrite H3, Hi.
  destruct (updateButtons_spec selected (dom b) ci c3 Hbi Hb3)
    as (ci' & c3' & E & _ & _ & Hm).
  rewrite E, H3 in *. exists ci', c3'. split; [reflexivity | exact Hm].
Qed.

Lemma unknown_view_type_marks_image_button_witness :
  exists ci' c3',
    toggleViewType "2DView" SceneSpec.both_resolve sample_browser
    = (inl tt,
       mkBrowser (world sample_browser)
                 (mkDom (carouselImage (dom sample_browser))
                        (threeJSContainer (dom sample_browser))
                        (Some ci') (Some c3')))
    /\ marked_active ci' /\ marked_inactive c3'.
Proof.
  apply (unknown_view_type_marks_image_button "2DView" SceneSpec.both_resolve
           sample_browser
           ["px-4"; "bg-gray-200"; "shadow-inner"; "cursor-default"]%string
           ["px-4"; "bg-white"; "hover:text-rose-500"]%string).
  - discriminate.
  - discriminate.
  - reflexivity.
  - reflexivity.
Defined.

(** X21. Without the container element toggleView('3DView') throws at
    the container access, after it has hidden the image: no activation is
    started, so nothing is logged (the "Container not found" branch of
    initializeRenderer is not reached from the toggle), SceneState is
    untouched and the buttons keep their marks. *)
Theorem missing_container_aborts_toggle (a : Activation) (b : Browser)
    (di : string) :
  carouselImage (dom b) = Some di -> threeJSContainer (dom b) = None ->
  toggleViewType "3DView" a b
  = (inr (TypeError "container"),
     mkBrowser (world b) (set_image_display "none" (dom b))).
Proof.
  intros Hi Hc. unfold toggleViewType, toggleView. simpl String.eqb.
  cbv iota. rewrite Hi. cbn [threeJSContainer set_image_display].
  now rewrite Hc.
Qed.

Lemma missing_container_aborts_toggle_witness :
  toggleViewType "3DView" SceneSpec.both_resolve
                 (mkBrowser initial_world
                            (mkDom (Some "block"%string) None None None))
  = (inr (TypeError "container"),
     mkBrowser (world (mkBrowser initial_world
                         (mkDom (Some "block"%string) None None None)))
               (set_image_display "none"
                  (dom (mkBrowser initial_world
                          (mkDom (Some "block"%string) None None None))))).
Proof.
  apply (missing_container_aborts_toggle SceneSpec.both_resolve
           (mkBrowser initial_world
                      (mkDom (Some "block"%string) None None None))
           "block"); reflexivity.
Defined.

End ToggleFacts.
